(** * react-update: path-addressed immutable updates

    A shallow embedding of [src/index.js] and the properties of its
    specification.

    JavaScript data is embedded as the type [value] of plain data: objects
    are the ordered lists of their own properties, arrays are lists
    without holes, numbers are integers (read as a property key only
    below 2^53 in magnitude, where they are exact).  Two arguments of a
    call are two objects.  A call ends in an [outcome]: it returns, it
    throws, or it leaves the embedded fragment of the language
    ([Outside]): a property
    found on [Object.prototype], the conversion of a string to a number,
    an array with holes.  Mutation of an argument (the path array, the
    host instance) is explicit: the function returns the argument as the
    call leaves it.

    The patch applier and the host's [setState] are not part of the
    sources.  The functions that call the applier take it as a parameter;
    [immutabilityHelper] and [setState] model the two from the
    specification. *)

From Stdlib Require Import String Ascii DecimalString.
From Stdlib Require Import ZArith List Bool Lia.
From Equations Require Import Equations.
From Equations.Prop Require Import Logic.
Import ListNotations.
Open Scope string_scope.
Open Scope list_scope.

(** ** Values and outcomes *)

#[warnings="-register-all"]
Inductive value : Type :=
| VUndef
| VNull
| VBool (b : bool)
| VNum (n : Z)
| VStr (s : string)
| VArr (elems : list value)
| VObj (props : list (string * value)).

Definition object : Type := list (string * value).

Inductive exn : Type :=
| TypeError            (* raised by the language *)
| InvariantViolation.  (* raised by the patch applier's own checks *)

Inductive outcome (A : Type) : Type :=
| Ret (a : A)
| Throws (e : exn)
| Outside.

Arguments Ret {A} a.
Arguments Throws {A} e.
Arguments Outside {A}.

Definition obind {A B : Type} (m : outcome A) (k : A -> outcome B) : outcome B :=
  match m with
  | Ret a => k a
  | Throws e => Throws e
  | Outside => Outside
  end.

Declare Scope outcome_scope.
Delimit Scope outcome_scope with outcome.
Notation "x <- m ;; k" := (obind m (fun x => k))
  (at level 61, m at next level, right associativity) : outcome_scope.
Open Scope outcome_scope.

(** ** Property access on plain data *)

Module Js.

(** The members every object inherits from [Object.prototype]. *)
Definition objectPrototypeNames : list string :=
  [ "constructor"; "hasOwnProperty"; "isPrototypeOf"; "propertyIsEnumerable";
    "toLocaleString"; "toString"; "valueOf"; "__proto__";
    "__defineGetter__"; "__defineSetter__"; "__lookupGetter__";
    "__lookupSetter__" ].

Definition inherited (k : string) : bool :=
  existsb (String.eqb k) objectPrototypeNames.

(** [ToBoolean]. *)
Definition truthy (v : value) : bool :=
  match v with
  | VUndef | VNull => false
  | VBool b => b
  | VNum n => negb (n =? 0)%Z
  | VStr s => negb (s =? "")
  | VArr _ | VObj _ => true
  end.

Definition decimal (n : Z) : string := NilEmpty.string_of_int (Z.to_int n).

(** [ToPropertyKey] on primitives.  An integer of magnitude below 2^53 is
    an exact number and prints as its decimal digits; a larger number
    prints the shortest digits that read back as the same number, which
    are not the digits of the integer: it is outside. *)
Definition toPropertyKey (v : value) : outcome string :=
  match v with
  | VStr s => Ret s
  | VUndef => Ret "undefined"
  | VNull => Ret "null"
  | VBool true => Ret "true"
  | VBool false => Ret "false"
  | VNum n => if (Z.abs n <? 2 ^ 53)%Z then Ret (decimal n) else Outside
  | VArr _ | VObj _ => Outside
  end.

(** [ToIntegerOrInfinity] on the values whose conversion is immediate. *)
Definition toInteger (v : value) : outcome Z :=
  match v with
  | VUndef | VNull => Ret 0%Z
  | VBool b => Ret (if b then 1 else 0)%Z
  | VNum n => Ret n
  | VStr _ | VArr _ | VObj _ => Outside
  end.

(** A canonical numeric string below 2^32 - 1 names an array element. *)
Definition arrayIndex (k : string) : option N :=
  match NilZero.uint_of_string k with
  | Some d =>
      let n := N.of_uint d in
      if (NilZero.string_of_uint (N.to_uint n) =? k) && (n <? 4294967295)%N
      then Some n else None
  | None => None
  end.

Fixpoint lookup (k : string) (o : object) : option value :=
  match o with
  | [] => None
  | (k', v) :: o' => if k =? k' then Some v else lookup k o'
  end.

Fixpoint replaceProp (k : string) (v : value) (o : object) : object :=
  match o with
  | [] => []
  | (k', v') :: o' =>
      if k =? k' then (k, v) :: o' else (k', v') :: replaceProp k v o'
  end.

(** A new index key goes before the first key that is a larger index or no
    index at all: own keys list the indices in ascending order first. *)
Fixpoint insertIndex (n : N) (k : string) (v : value) (o : object) : object :=
  match o with
  | [] => [(k, v)]
  | (k', v') :: o' =>
      match arrayIndex k' with
      | Some n' =>
          if (n <? n')%N then (k, v) :: o else (k', v') :: insertIndex n k v o'
      | None => (k, v) :: o
      end
  end.

(** [o[k] = v] on the own properties: an existing key keeps its place, a
    new one is created in own-key order. *)
Definition defineProp (k : string) (v : value) (o : object) : object :=
  match lookup k o with
  | Some _ => replaceProp k v o
  | None =>
      match arrayIndex k with
      | Some n => insertIndex n k v o
      | None => o ++ [(k, v)]
      end
  end.

Fixpoint replaceNth (i : nat) (v : value) (l : list value) : list value :=
  match l, i with
  | [], _ => []
  | _ :: l', O => v :: l'
  | x :: l', S i' => x :: replaceNth i' v l'
  end.

(** [v[k]] *)
Definition getProp (v : value) (k : string) : outcome value :=
  match v with
  | VUndef | VNull => Throws TypeError
  | VObj o =>
      match lookup k o with
      | Some x => Ret x
      | None => if inherited k then Outside else Ret VUndef
      end
  | VArr l =>
      match arrayIndex k with
      | Some i => Ret (nth (N.to_nat i) l VUndef)
      | None => Outside
      end
  | VBool _ | VNum _ | VStr _ => Outside
  end.

(** [v[k] = x], returning [v] as the assignment leaves it. *)
Definition setProp (v : value) (k : string) (x : value) : outcome value :=
  match v with
  | VUndef | VNull => Throws TypeError
  | VObj o => if k =? "__proto__" then Outside else Ret (VObj (defineProp k x o))
  | VArr l =>
      match arrayIndex k with
      | Some i =>
          if (N.to_nat i <? length l)%nat
          then Ret (VArr (replaceNth (N.to_nat i) x l))
          else if (N.to_nat i =? length l)%nat then Ret (VArr (l ++ [x]))
          else Outside
      | None => Outside
      end
  | VBool _ | VNum _ | VStr _ => Outside
  end.

(** [k in o] for a plain object [o]. *)
Definition hasProp (o : object) (k : string) : outcome bool :=
  match lookup k o with
  | Some _ => Ret true
  | None => if inherited k then Outside else Ret false
  end.

(** [Object.keys] *)
Definition keys (o : object) : list string := map fst o.

(** [Array.prototype.pop] and [shift]: the element taken and the array left. *)
Definition pop (l : list value) : value * list value :=
  (last l VUndef, removelast l).

Definition shift (l : list value) : value * list value :=
  (hd VUndef l, tl l).

(** [Array.prototype.splice.apply(l, args)], the array left. *)
Definition splice (l : list value) (args : list value) : outcome (list value) :=
  match args with
  | [] => Ret l
  | start :: more =>
      s <- toInteger start ;;
      let len := Z.of_nat (length l) in
      let from := if (s <? 0)%Z then Z.max (len + s) 0 else Z.min s len in
      match more with
      | [] => Ret (firstn (Z.to_nat from) l)
      | count :: items =>
          c <- toInteger count ;;
          let gone := Z.min (Z.max c 0) (len - from) in
          Ret (firstn (Z.to_nat from) l ++ items
               ++ skipn (Z.to_nat (from + gone)) l)
      end
  end.

End Js.

(** ** Path resolver (lines 74-89) *)

Definition isDelimiter (c : ascii) : bool :=
  ((c =? ".") || (c =? "[") || (c =? "]"))%char.

(** [s.split(/\.|\[|\]/)]: the tokens between the delimiters, empty ones
    included. *)
Fixpoint split (s : string) : list string :=
  match s with
  | EmptyString => [""]
  | String c s' =>
      if isDelimiter c then "" :: split s'
      else match split s' with
           | t :: ts => String c t :: ts
           | [] => [String c ""]
           end
  end.

Definition getPathArray (path : value) : value :=
  match path with
  | VStr s => VArr (map VStr (filter (fun v => Js.truthy (VStr v)) (split s)))
  | _ => path
  end.

(** The pair [[prop, path]] returned, and the argument [path] as the call
    leaves it: [shift] works on the caller's array when [path] is one. *)
Definition getDestructPath (path : value) : outcome (value * value) * value :=
  match getPathArray path with
  | VArr l =>
      let (prop, rest) := Js.shift l in
      (Ret (prop, if (length rest =? 0)%nat then VNull else VArr rest),
       match path with VArr _ => VArr rest | _ => path end)
  | _ => (Throws TypeError, path)
  end.

(** ** Update constructor (lines 13-66) *)

Module commands.

Definition set (v : value) : value := VObj [("$set", v)].

Definition push (v : value) : value := VObj [("$push", VArr [v])].

Definition splice (v : value) : value :=
  VObj [("$splice", VArr [VArr [v; VNum 1]])].

(** The own members of [commands]. *)
Definition member (type : string) : option (value -> value) :=
  if type =? "set" then Some set
  else if type =? "push" then Some push
  else if type =? "splice" then Some splice
  else None.

End commands.

Module updateHelper.

(** [commands[type](value)]: calling a missing member throws; a member
    found on [Object.prototype] is not a command builder. *)
Definition getImmutabilitySugarCommand (type v : value) : outcome value :=
  k <- Js.toPropertyKey type ;;
  match commands.member k with
  | Some build => Ret (build v)
  | None => if Js.inherited k then Outside else Throws TypeError
  end.

(** The loop of lines 43-46.  [temp] is a fresh empty object each time the
    body runs, so [target] is a context closed by what [temp] becomes. *)
Fixpoint nestLoop (keys : list value) (target : value -> value)
  : outcome (value -> value) :=
  match keys with
  | [] => Ret target
  | key :: keys' =>
      k <- Js.toPropertyKey key ;;
      if k =? "__proto__" then Outside
      else nestLoop keys' (fun temp => target (VObj [(k, temp)]))
  end.

(** The nested data, and [path] as the call leaves it ([pop]). *)
Definition getNestedData (path v : value) : outcome value * value :=
  if Js.truthy path then
    match path with
    | VArr l =>
        let (lastKey, rest) := Js.pop l in
        (target <- nestLoop rest (fun temp => temp) ;;
         k <- Js.toPropertyKey lastKey ;;
         temp <- Js.setProp (VObj []) k v ;;
         Ret (target temp),
         VArr rest)
    | _ =>
        (k <- Js.toPropertyKey path ;; Js.setProp (VObj []) k v, path)
    end
  else (Ret v, path).

Definition getImmutabilitySugar (type path v : value) : outcome value * value :=
  match getImmutabilitySugarCommand type v with
  | Ret command => getNestedData path command
  | Throws e => (Throws e, path)
  | Outside => (Outside, path)
  end.

Section Applier.

(** The imported patch applier, [immutabilityUpdate(source, sugar)]. *)
Variable immutabilityUpdate : value -> value -> outcome value.

Definition update (source type path v : value) : outcome value * value :=
  match getImmutabilitySugar type path v with
  | (Ret sugar, path') => (immutabilityUpdate source sugar, path')
  | (Throws e, path') => (Throws e, path')
  | (Outside, path') => (Outside, path')
  end.

End Applier.

End updateHelper.

(** ** The patch applier *)

(** The directives of the applier that this program never builds. *)
Definition otherDirectives : list string :=
  [ "$unshift"; "$merge"; "$apply"; "$unset"; "$toggle"; "$add"; "$remove" ].

(** Modelled from the spec: the external deep-patch applier (the package
    immutability-helper, imported at line 11, is not part of the sources).
    It supports the replace-whole-value ([$set]), append-to-sequence
    ([$push]) and remove-at-index ([$splice], arguments handed to the
    array's own [splice]) primitive commands under arbitrary single-key
    nesting and never mutates [source].  A command tree of another shape
    is outside; so is writing [undefined] under a key the source lacks,
    on which the releases of the package differ. *)
Fixpoint immutabilityHelper (source spec : value) : outcome value :=
  match spec with
  | VObj [] => Ret source
  | VObj [(key, sub)] =>
      if key =? "$set" then Ret sub
      else if key =? "$push" then
        match source, sub with
        | VArr l, VArr items => Ret (VArr (l ++ items))
        | _, _ => Throws InvariantViolation
        end
      else if key =? "$splice" then
        match source, sub with
        | VArr l, VArr calls =>
            l' <- fold_left
                    (fun acc call =>
                       cur <- acc ;;
                       match call with
                       | VArr args => Js.splice cur args
                       | _ => Throws InvariantViolation
                       end)
                    calls (Ret l) ;;
            Ret (VArr l')
        | _, _ => Throws InvariantViolation
        end
      else if existsb (String.eqb key) otherDirectives then Outside
      else
        cur <- Js.getProp source key ;;
        next <- immutabilityHelper cur sub ;;
        match cur, next with
        | VUndef, VUndef => Outside
        | _, _ => Js.setProp source key next
        end
  | VObj _ => Outside
  | _ => Throws InvariantViolation
  end.

(** ** State-binding layer (lines 68-160) *)

(** Calls that also change data they hold: state passing with outcomes. *)
Definition M (S A : Type) : Type := S -> outcome A * S.

Definition ret {S A : Type} (a : A) : M S A := fun s => (Ret a, s).

Definition bind {S A B : Type} (m : M S A) (k : A -> M S B) : M S B :=
  fun s =>
    match m s with
    | (Ret a, s') => k a s'
    | (Throws e, s') => (Throws e, s')
    | (Outside, s') => (Outside, s')
    end.

Definition lift {S A : Type} (o : outcome A) : M S A := fun s => (o, s).

Definition gets {S A : Type} (f : S -> A) : M S A := fun s => (Ret (f s), s).

Definition modify {S : Type} (f : S -> S) : M S unit := fun s => (Ret tt, f s).

Declare Scope monad_scope.
Delimit Scope monad_scope with monad.
Notation "x <~ m ;; k" := (bind m (fun x => k))
  (at level 61, m at next level, right associativity) : monad_scope.
Notation "m ;;; k" := (bind m (fun _ => k))
  (at level 61, right associativity) : monad_scope.

(** [Array.prototype.forEach]: a throwing callback ends the loop. *)
Fixpoint forEach {S A : Type} (l : list A) (f : A -> M S unit) : M S unit :=
  match l with
  | [] => ret tt
  | x :: l' => bind (f x) (fun _ => forEach l' f)
  end.

(** [Object.prototype.toString.call(obj) === '[object Object]'] *)
Definition isPlainObject (obj : value) : bool :=
  match obj with
  | VObj _ => true
  | _ => false
  end.

(** The own enumerable properties [Object.assign] copies from a source. *)
Definition ownEntries (source : value) : outcome object :=
  match source with
  | VObj o => Ret o
  | VUndef | VNull | VBool _ | VNum _ => Ret []
  | VStr _ | VArr _ => Outside
  end.

(** [target[k] = x] for one own property [(k, x)] of a source. *)
Definition copyEntry (acc : outcome value) (kv : string * value) : outcome value :=
  t <- acc ;; Js.setProp t (fst kv) (snd kv).

(** [Object.assign(target, ...sources)], the target as it is left. *)
Fixpoint Object_assign (target : value) (sources : list value) : outcome value :=
  match sources with
  | [] =>
      match target with
      | VObj _ => Ret target
      | _ => Outside
      end
  | source :: sources' =>
      entries <- ownEntries source ;;
      target' <- fold_left copyEntry entries (Ret target) ;;
      Object_assign target' sources'
  end.

(** The host: a component instance as the program reads and writes it.
    [_reactInternalInstance] is [None] when the host does not expose it,
    [_pendingStateQueue] is [None] when it is [null]; [__lastState] is
    [VUndef] when the instance has no such property.  [setStateCalls]
    records the fragments handed to [this.setState], in call order. *)
Record internalInstance : Type := InternalInstance {
  _pendingStateQueue : option (list value)
}.

Record instance : Type := Instance {
  isReactComponent : bool;
  state : value;
  _reactInternalInstance : option internalInstance;
  __lastState : value;
  setStateCalls : list value
}.

Definition with_state (s : value) (i : instance) : instance :=
  Instance (isReactComponent i) s (_reactInternalInstance i) (__lastState i)
           (setStateCalls i).

Definition with_queue (q : option (list value)) (i : instance) : instance :=
  Instance (isReactComponent i) (state i)
           (option_map (fun _ => InternalInstance q) (_reactInternalInstance i))
           (__lastState i) (setStateCalls i).

Definition with_lastState (c : value) (i : instance) : instance :=
  Instance (isReactComponent i) (state i) (_reactInternalInstance i) c
           (setStateCalls i).

(** Modelled from the spec: the host's commit capability [this.setState]
    (React's, not part of the sources).  Within a tick, before the host
    commits, it schedules the fragment: a host that exposes its
    pending-state queue appends the fragment to it, and the committed
    [state] stays as it is. *)
Definition setState (this : instance) (fragment : value) : instance :=
  let queued :=
    match _reactInternalInstance this with
    | Some i =>
        Some (InternalInstance
                (Some (match _pendingStateQueue i with
                       | Some q => q ++ [fragment]
                       | None => [fragment]
                       end)))
    | None => None
    end in
  Instance (isReactComponent this) (state this) queued (__lastState this)
           (setStateCalls this ++ [fragment]).

(** The value returned, and the instance as the call leaves it. *)
Definition getCachedLastState (this : instance) : outcome value * instance :=
  let queue :=
    match _reactInternalInstance this with
    | Some internal => _pendingStateQueue internal
    | None => None
    end in
  match queue with
  | Some q =>
      let (top, q') := Js.pop q in
      let this' := with_queue (Some q') this in
      let assigned :=
        if Js.truthy (__lastState this)
        then Object_assign (__lastState this) [top]
        else Object_assign (VObj []) [state this; top] in
      match assigned with
      | Ret cache => (Ret cache, with_lastState cache this')
      | Throws e => (Throws e, this')
      | Outside => (Outside, this')
      end
  | None => (Ret VUndef, with_lastState VUndef this)
  end.

(** The variables of one [updateState] call that [updateNextState] writes:
    [lastState] (an alias of the cache or of [this.state]), [nextState],
    and the array the caller passed as [path], if it passed one. *)
Record frame : Type := Frame {
  lastState : value;
  nextState : object;
  pathArray : value
}.

Definition setLastState (v : value) (f : frame) : frame :=
  Frame v (nextState f) (pathArray f).

Definition setNextState (o : object) (f : frame) : frame :=
  Frame (lastState f) o (pathArray f).

Definition setPathArray (p : value) (f : frame) : frame :=
  Frame (lastState f) (nextState f) p.

(** [type === 'set'] *)
Definition isSet (type : value) : bool :=
  match type with
  | VStr s => s =? "set"
  | _ => false
  end.

Definition rank (path : value) : nat := if isPlainObject path then 1 else 0.

Section Bound.

Variable immutabilityUpdate : value -> value -> outcome value.

Open Scope monad_scope.

(** [getDestructPath(path)]; the shift shows in the caller's array. *)
Definition destructPath (path : value) : M frame (value * value) :=
  fun f =>
    let (r, path') := getDestructPath path in
    (r, match path with VArr _ => setPathArray path' f | _ => f end).

(** [updateHelper.update(source, type, remainPath, value)]; [remainPath],
    when not null, is the array [getDestructPath] shifted. *)
Definition applyUpdate (source type path remainPath v : value) : M frame value :=
  fun f =>
    let (r, remain') := updateHelper.update immutabilityUpdate source type remainPath v in
    (r, match path, remainPath with
        | VArr _, VArr _ => setPathArray remain' f
        | _, _ => f
        end).

(** [nextState[prop] = x] *)
Definition assignNextState (prop : string) (x : value) : M frame unit :=
  o <~ gets nextState ;;
  if prop =? "__proto__" then lift Outside
  else modify (setNextState (Js.defineProp prop x o)).

(** Line 124: the value goes into the fragment as it is. *)
Definition fastPath (k : string) (v : value) : M frame unit :=
  assignNextState k v.

(** Lines 126-130: an earlier write to [prop] in this call is first put
    into [lastState], then the applier computes the new value from it. *)
Definition generalPath (type path remainPath : value) (k : string) (v : value)
  : M frame unit :=
  o <~ gets nextState ;;
  written <~ lift (Js.hasProp o k) ;;
  (if written : bool then
     last <~ gets lastState ;;
     earlier <~ lift (Js.getProp (VObj o) k) ;;
     last' <~ lift (Js.setProp last k earlier) ;;
     modify (setLastState last')
   else ret tt) ;;;
  last <~ gets lastState ;;
  source <~ lift (Js.getProp last k) ;;
  x <~ applyUpdate source type path remainPath v ;;
  assignNextState k x.

(** Lines 121-131, the branch for one path. *)
Definition updateProp (type path v : value) : M frame unit :=
  pr <~ destructPath path ;;
  let (prop, remainPath) := pr : value * value in
  k <~ lift (Js.toPropertyKey prop) ;;
  if negb (Js.truthy remainPath) && isSet type
  then fastPath k v
  else generalPath type path remainPath k v.

Equations? updateNextState (type path v : value) : M frame unit
  by wf (rank path) lt :=
  updateNextState type path v with inspect (isPlainObject path) := {
    | exist _ true Hplain =>
        forEach (match path with VObj o => Js.keys o | _ => [] end)
          (fun key =>
             x <~ lift (Js.getProp path key) ;;
             updateNextState type (VStr key) x)
    | exist _ false _ => updateProp type path v }.
Proof. unfold rank. rewrite Hplain. simpl. lia. Qed.

(** [const [a, b, c] = args]: a missing argument is [undefined]. *)
Definition arg (i : nat) (args : list value) : value := nth i args VUndef.

(** The value returned, the instance and the [path] argument as the call
    leaves them. *)
Definition updateState (this : instance) (args : list value)
  : outcome value * instance * value :=
  let type := arg 0 args in
  let path := arg 1 args in
  let v := arg 2 args in
  match getCachedLastState this with
  | (Ret cache, this1) =>
      let cached := Js.truthy cache in
      let (r, f) :=
        updateNextState type path v
          (Frame (if cached then cache else state this1) [] path) in
      let this2 :=
        if cached then with_lastState (lastState f) this1
        else with_state (lastState f) this1 in
      match r with
      | Ret _ =>
          let keys := Js.keys (nextState f) in
          (if (length keys =? 1)%nat
           then Js.getProp (VObj (nextState f)) (hd "" keys)
           else Ret (VObj (nextState f)),
           setState this2 (VObj (nextState f)),
           pathArray f)
      | Throws e => (Throws e, this2, pathArray f)
      | Outside => (Outside, this2, pathArray f)
      end
  | (Throws e, this1) => (Throws e, this1, path)
  | (Outside, this1) => (Outside, this1, path)
  end.

(** The value returned, and the [path] argument as the call leaves it. *)
Definition updateSilent (args : list value) : outcome value * value :=
  let source := arg 0 args in
  let type := arg 1 args in
  let path := arg 2 args in
  let v := arg 3 args in
  let (r, path') :=
    updateHelper.update immutabilityUpdate source type (getPathArray path) v in
  (r, match path with VStr _ => path | _ => path' end).

(** The exported function; [this] is [None] for a call without receiver. *)
Definition update (this : option instance) (args : list value)
  : outcome value * option instance * value :=
  match this with
  | Some host =>
      if isReactComponent host then
        let '(r, host', path') := updateState host args in
        (r, Some host', path')
      else
        let (r, path') := updateSilent args in (r, this, path')
  | None =>
      let (r, path') := updateSilent args in (r, this, path')
  end.

End Bound.

(** * Vocabulary of the specification *)

(** ** Paths *)

(** A key: a non-empty string without delimiter. *)
Fixpoint delimiterFree (k : string) : bool :=
  match k with
  | EmptyString => true
  | String c k' => negb (isDelimiter c) && delimiterFree k'
  end.

Definition isKey (k : string) : bool := negb (k =? "") && delimiterFree k.

(** Where a key may end: at the end of the string or before a delimiter. *)
Definition keyEnd (s : string) : bool :=
  match s with
  | EmptyString => true
  | String c _ => isDelimiter c
  end.

(** The keys of a string path. *)
Definition pathKeys (s : string) : list string :=
  filter (fun v => Js.truthy (VStr v)) (split s).

(** The top-level property a string path starts with. *)
Definition propOf (p : string) : string :=
  match pathKeys p with
  | [] => "undefined"
  | k :: _ => k
  end.

(** What is left of a string path after its first key. *)
Definition remainOf (p : string) : value :=
  let rest := tl (map VStr (pathKeys p)) in
  if (length rest =? 0)%nat then VNull else VArr rest.

(** The path argument for a sequence of keys; no key: the path is absent
    and addresses the root. *)
Definition pathOf (keys : list string) : value :=
  match keys with
  | [] => VUndef
  | _ => VArr (map VStr keys)
  end.

(** ** Command trees and the values they address *)

Definition notProto (k : string) : bool := negb (k =? "__proto__").

(** The names the patch applier reads as directives. *)
Definition directive (k : string) : bool :=
  (k =? "$set") || (k =? "$push") || (k =? "$splice")
  || existsb (String.eqb k) otherDirectives.

(** A key of a path into plain data. *)
Definition plainKey (k : string) : bool := notProto k && negb (directive k).

(** The command tree of a resolved path: one single-key level per key,
    the leaf command under the last. *)
Definition nest (keys : list string) (leaf : value) : value :=
  fold_right (fun k tree => VObj [(k, tree)]) leaf keys.

(** [source] at [keys]. *)
Fixpoint valueAt (source : value) (keys : list string) : outcome value :=
  match keys with
  | [] => Ret source
  | k :: keys' => cur <- Js.getProp source k ;; valueAt cur keys'
  end.

(** [source] with [x] at [keys]. *)
Fixpoint replaceAt (source : value) (keys : list string) (x : value)
  : outcome value :=
  match keys with
  | [] => Ret x
  | k :: keys' =>
      cur <- Js.getProp source k ;;
      next <- replaceAt cur keys' x ;;
      Js.setProp source k next
  end.



(** ** Hosts *)

(** A value whose own properties [Object.assign] copies within the
    embedding. *)
Definition assignable (v : value) : bool :=
  match v with
  | VObj o => forallb notProto (Js.keys o)
  | VUndef | VNull | VBool _ | VNum _ => true
  | VStr _ | VArr _ => false
  end.

(** A host of plain data: its state is a plain object, its pending
    fragments are assignable, its cache, if it has one, is a plain
    object. *)
Definition orderly (h : instance) : bool :=
  isPlainObject (state h) && assignable (state h)
  && (negb (Js.truthy (__lastState h)) || isPlainObject (__lastState h))
  && match _reactInternalInstance h with
     | Some (InternalInstance (Some q)) => forallb assignable q
     | _ => true
     end.

(** The host exposes its pending-state queue. *)
Definition exposesQueue (h : instance) : bool :=
  match _reactInternalInstance h with
  | Some _ => true
  | None => false
  end.

(** The call has a component as its receiver. *)
Definition isBound (this : option instance) : bool :=
  match this with
  | Some h => isReactComponent h
  | None => false
  end.

(** One step of [Object.assign] on the own properties of the target. *)
Definition defineEntry (o : object) (kv : string * value) : object :=
  Js.defineProp (fst kv) (snd kv) o.

(** ** Updates *)

(** The top-level property the first update of a call is for: the first
    key of a path, or of the first path of a mapping of paths. *)
Definition firstProp (path : value) : option string :=
  match path with
  | VStr p => Some (propOf p)
  | VArr l =>
      match Js.toPropertyKey (hd VUndef l) with
      | Ret k => Some k
      | _ => None
      end
  | VObj ((p, _) :: _) => Some (propOf p)
  | _ => None
  end.

(** The update of the string path [p] takes the general path: there is a
    remaining path, or the operation is not ['set']. *)
Definition takesGeneralPath (type : value) (p : string) : bool :=
  negb (negb (Js.truthy (remainOf p)) && isSet type).

(** The value the update of the string path [p] to [v] computes for its
    property when the property's value is [base]. *)
Definition computed (applier : value -> value -> outcome value)
    (type : value) (p : string) (v base : value) : outcome value :=
  if takesGeneralPath type p
  then fst (updateHelper.update applier base type (remainOf p) v)
  else Ret v.

(** The fragment the updates of a mapping of paths build one after the
    other when each starts from the freshest value of its property: the
    result of the latest earlier update of that property, or the value in
    the last state. *)
Fixpoint freshest (applier : value -> value -> outcome value) (type : value)
    (entries last frag : object) : outcome object :=
  match entries with
  | [] => Ret frag
  | (p, v) :: rest =>
      let base :=
        match Js.lookup (propOf p) frag with
        | Some earlier => earlier
        | None =>
            match Js.lookup (propOf p) last with
            | Some b => b
            | None => VUndef
            end
        end in
      x <- computed applier type p v base ;;
      freshest applier type rest last (Js.defineProp (propOf p) x frag)
  end.

(** The last state as a call has rewritten it agrees with the one it
    started from on every property the call has not written. *)
Definition agreesWith (last current frag : object) : Prop :=
  forall k, Js.lookup k frag = None -> Js.lookup k current = Js.lookup k last.

(** The update of one key of a mapping of paths (line 118). *)
Definition updateKey (applier : value -> value -> outcome value)
    (type : value) (o : object) (key : string) : M frame unit :=
  bind (lift (Js.getProp (VObj o) key))
       (fun x => updateProp applier type (VStr key) x).

(** Modelled on the words of the specification, to compare with
    [updateNextState]: in a multi-path update a value that is itself a
    plain mapping is expanded the same way; any other value is the update
    value of its key. *)
Fixpoint expandingUpdate (applier : value -> value -> outcome value)
    (type path v : value) {struct path} : M frame unit :=
  match path with
  | VObj o =>
      (fix each (entries : object) : M frame unit :=
         match entries with
         | [] => ret tt
         | (key, x) :: rest =>
             bind (if isPlainObject x
                   then expandingUpdate applier type x VUndef
                   else updateProp applier type (VStr key) x)
                  (fun _ => each rest)
         end) o
  | _ => updateProp applier type path v
  end.

(** Steps of a call and the frame's record of the caller's array: a step
    keeps the record; a frame holds one of two given arrays; a step that
    starts from the first of them reaches one of the two. *)
Definition keeps {A : Type} (m : M frame A) : Prop :=
  forall f, pathArray (snd (m f)) = pathArray f.

Definition among (before after : value) (f : frame) : Prop :=
  pathArray f = before \/ pathArray f = after.

Definition reaches {A : Type} (before after : value) (m : M frame A) : Prop :=
  forall f, pathArray f = before -> among before after (snd (m f)).

(** ** Paths that part *)

(** ** Calls and hosts at the edges *)

(** No path at all: neither a string, a sequence nor a mapping. *)
Definition noPath (path : value) : bool :=
  match path with
  | VStr _ | VArr _ | VObj _ => false
  | _ => true
  end.

(** The host has no pending-state queue to read: it exposes none, or the
    queue is [null]. *)
Definition idle (h : instance) : bool :=
  match _reactInternalInstance h with
  | Some (InternalInstance (Some _)) => false
  | _ => true
  end.

(** The pending-state queue of the host, if it exposes one that is not
    [null]. *)
Definition pending (h : instance) : option (list value) :=
  match _reactInternalInstance h with
  | Some internal => _pendingStateQueue internal
  | None => None
  end.
(** The own properties of a value that is a plain object; any other value
    has none to copy. *)
Definition ownProps (v : value) : object :=
  match v with
  | VObj o => o
  | _ => []
  end.
(** A path that is one key and names no member of [Object.prototype]. *)
Definition simpleKey (k : string) : bool := isKey k && negb (Js.inherited k).
(** The keys are pairwise different, as the own keys of an object are. *)
Fixpoint distinct (ks : list string) : bool :=
  match ks with
  | [] => true
  | k :: ks' => negb (existsb (String.eqb k) ks') && distinct ks'
  end.

(** The elements of a sequence path name, one by one, the given keys. *)
Fixpoint spells (l : list value) (keys : list string) : bool :=
  match l, keys with
  | [], [] => true
  | x :: l', k :: keys' =>
      match Js.toPropertyKey x with
      | Ret k' => (k' =? k) && spells l' keys'
      | _ => false
      end
  | _, _ => false
  end.

(** Two frames hold the same data: they differ at most in their record
    of the caller's array.  Two steps agree: from frames with the same
    data they have the same outcome and leave the same data. *)
Definition sameData (f f2 : frame) : Prop :=
  lastState f = lastState f2 /\ nextState f = nextState f2.

Definition agree {A : Type} (m m2 : M frame A) : Prop :=
  forall f f2, sameData f f2 ->
    fst (m f) = fst (m2 f2) /\ sameData (snd (m f)) (snd (m2 f2)).
(** A frame of plain data: the last state is a plain object, none of its
    keys is [__proto__] when [strict] is set, and no key of the fragment
    is.  A step preserves a property of frames. *)
Definition tidy (strict : bool) (f : frame) : Prop :=
  (exists l, lastState f = VObj l
             /\ (strict = true -> forallb notProto (Js.keys l) = true))
  /\ forallb notProto (Js.keys (nextState f)) = true.

Definition preserves {A : Type} (I : frame -> Prop) (m : M frame A) : Prop :=
  forall f, I f -> I (snd (m f)).

(** * Properties *)

(** ** Own properties *)

Section OwnProperties.

Implicit Types (k : string) (v : value) (o : object).

Lemma lookup_replaceProp_same k v o x :
  Js.lookup k o = Some x -> Js.lookup k (Js.replaceProp k v o) = Some v.
Proof.
  induction o as [|[k' v'] o IH]; simpl; [discriminate|].
  destruct (k =? k') eqn:E; simpl.
  - rewrite String.eqb_refl. reflexivity.
  - rewrite E. exact IH.
Qed.

Lemma lookup_replaceProp_other k k' v o :
  k' <> k -> Js.lookup k' (Js.replaceProp k v o) = Js.lookup k' o.
Proof.
  intros Hne. induction o as [|[k0 v0] o IH]; simpl; [reflexivity|].
  destruct (k =? k0) eqn:E; simpl.
  - apply String.eqb_eq in E. subst k0.
    apply String.eqb_neq in Hne. rewrite Hne. reflexivity.
  - rewrite IH. reflexivity.
Qed.

Lemma lookup_insertIndex_same n k v o :
  Js.lookup k o = None -> Js.lookup k (Js.insertIndex n k v o) = Some v.
Proof.
  induction o as [|[k' v'] o IH]; simpl.
  - rewrite String.eqb_refl. reflexivity.
  - destruct (k =? k') eqn:E; [discriminate|]. intros Hnone.
    destruct (Js.arrayIndex k') as [n'|]; [destruct (n <? n')%N|]; simpl;
      rewrite ?String.eqb_refl, ?E; auto.
Qed.

Lemma lookup_insertIndex_other n k k' v o :
  k' <> k -> Js.lookup k' (Js.insertIndex n k v o) = Js.lookup k' o.
Proof.
  intros Hne. apply String.eqb_neq in Hne.
  induction o as [|[k0 v0] o IH]; simpl.
  - rewrite Hne. reflexivity.
  - destruct (Js.arrayIndex k0) as [n'|]; [destruct (n <? n')%N|]; simpl;
      rewrite ?Hne, ?IH; reflexivity.
Qed.

Lemma lookup_app_same k v o :
  Js.lookup k o = None -> Js.lookup k (o ++ [(k, v)]) = Some v.
Proof.
  induction o as [|[k' v'] o IH]; simpl.
  - rewrite String.eqb_refl. reflexivity.
  - destruct (k =? k'); [discriminate | exact IH].
Qed.

Lemma lookup_app_other k k' v o :
  k' <> k -> Js.lookup k' (o ++ [(k, v)]) = Js.lookup k' o.
Proof.
  intros Hne. apply String.eqb_neq in Hne.
  induction o as [|[k0 v0] o IH]; simpl.
  - rewrite Hne. reflexivity.
  - rewrite IH. reflexivity.
Qed.

Lemma lookup_defineProp_same k v o :
  Js.lookup k (Js.defineProp k v o) = Some v.
Proof.
  unfold Js.defineProp. destruct (Js.lookup k o) eqn:E.
  - eapply lookup_replaceProp_same; eauto.
  - destruct (Js.arrayIndex k).
    + apply lookup_insertIndex_same; assumption.
    + apply lookup_app_same; assumption.
Qed.

Lemma lookup_defineProp_other k k' v o :
  k' <> k -> Js.lookup k' (Js.defineProp k v o) = Js.lookup k' o.
Proof.
  intros Hne. unfold Js.defineProp. destruct (Js.lookup k o).
  - apply lookup_replaceProp_other; assumption.
  - destruct (Js.arrayIndex k).
    + apply lookup_insertIndex_other; assumption.
    + apply lookup_app_other; assumption.
Qed.

Lemma defineProp_nil k v : Js.defineProp k v [] = [(k, v)].
Proof. unfold Js.defineProp. simpl. destruct (Js.arrayIndex k); reflexivity. Qed.

Lemma nth_replaceNth_same i v (l : list value) :
  (i < length l)%nat -> nth i (Js.replaceNth i v l) VUndef = v.
Proof.
  revert i. induction l as [|x l IH]; intros [|i] Hlt; simpl in *; try lia.
  - reflexivity.
  - apply IH. lia.
Qed.

End OwnProperties.

(** ** Path resolver *)

Lemma split_keyEnd s : keyEnd s = true -> exists ts, split s = "" :: ts.
Proof.
  destruct s as [|c s]; simpl; [eauto|]. intros ->. eauto.
Qed.

Lemma split_key_app k s ts :
  delimiterFree k = true -> split s = "" :: ts ->
  split (k ++ s)%string = k :: ts.
Proof.
  intros Hk Hs. induction k as [|c k IH]; simpl in *; [exact Hs|].
  apply andb_true_iff in Hk. destruct Hk as [Hc Hk].
  apply negb_true_iff in Hc. rewrite Hc, (IH Hk). reflexivity.
Qed.

Lemma pathKeys_empty : pathKeys "" = [].
Proof. reflexivity. Qed.

Lemma pathKeys_delimiter c s :
  isDelimiter c = true -> pathKeys (String c s) = pathKeys s.
Proof. intros H. unfold pathKeys. simpl. rewrite H. reflexivity. Qed.

Lemma pathKeys_key k s :
  isKey k = true -> keyEnd s = true ->
  pathKeys (k ++ s)%string = k :: pathKeys s.
Proof.
  intros Hk Hs. apply andb_true_iff in Hk. destruct Hk as [Hne Hk].
  destruct (split_keyEnd s Hs) as [ts Hts].
  unfold pathKeys. rewrite (split_key_app k s ts Hk Hts), Hts. simpl.
  rewrite Hne. reflexivity.
Qed.

Lemma getPathArray_string s : getPathArray (VStr s) = VArr (map VStr (pathKeys s)).
Proof. reflexivity. Qed.

(** C6, as the specification states it, fails: an absent path is not
    turned into an empty sequence of keys, [getPathArray] hands [null]
    back (only a string is converted, line 76). *)
Lemma getPathArray_null_not_empty :
  getPathArray VNull = VNull /\ getPathArray VNull <> VArr [].
Proof. split; [reflexivity | discriminate]. Qed.

(** C6, amended: [getPathArray] returns an absent path ([undefined],
    [null]) as it is and a sequence as it is; a string becomes the
    sequence of its keys, in order: the empty string has none, a leading
    delimiter ['.'], ['['] or [']'] is skipped, and a leading key (a
    maximal non-empty run without delimiter) comes first. *)
Theorem getPathArray_spec :
  getPathArray VUndef = VUndef
  /\ getPathArray VNull = VNull
  /\ (forall l, getPathArray (VArr l) = VArr l)
  /\ getPathArray (VStr "") = VArr []
  /\ (forall c s,
        isDelimiter c = true ->
        getPathArray (VStr (String c s)) = getPathArray (VStr s))
  /\ (forall k s ks,
        isKey k = true -> keyEnd s = true ->
        getPathArray (VStr s) = VArr ks ->
        getPathArray (VStr (k ++ s)) = VArr (VStr k :: ks)).
Proof.
  repeat split; try reflexivity.
  - intros c s H. rewrite !getPathArray_string, pathKeys_delimiter by exact H.
    reflexivity.
  - intros k s ks Hk Hs H. rewrite getPathArray_string in *.
    rewrite pathKeys_key by assumption. simpl. congruence.
Qed.

(** The path equivalence of the specification, from the equations of
    [getPathArray_spec]. *)
Lemma getPathArray_spec_witness :
  getPathArray (VStr "a.b[c]") = VArr [VStr "a"; VStr "b"; VStr "c"]
  /\ getPathArray (VArr [VStr "a"; VStr "b"; VStr "c"])
     = VArr [VStr "a"; VStr "b"; VStr "c"].
Proof.
  destruct getPathArray_spec as (_ & _ & Harr & Hempty & Hdelim & Hkey).
  split; [|apply Harr].
  apply (Hkey "a" ".b[c]"); [reflexivity | reflexivity |].
  rewrite Hdelim by reflexivity.
  apply (Hkey "b" "[c]"); [reflexivity | reflexivity |].
  rewrite Hdelim by reflexivity.
  apply (Hkey "c" "]"); [reflexivity | reflexivity |].
  rewrite Hdelim by reflexivity.
  exact Hempty.
Defined.

(** ** Update constructor *)

Lemma nestLoop_nest keys target :
  forallb notProto keys = true ->
  exists target',
    updateHelper.nestLoop (map VStr keys) target = Ret target'
    /\ forall temp, target' temp = target (nest keys temp).
Proof.
  revert target. induction keys as [|k keys IH]; intros target Hk; simpl in *.
  - eauto.
  - apply andb_true_iff in Hk. destruct Hk as [Hp Hk].
    apply negb_true_iff in Hp. rewrite Hp.
    destruct (IH (fun temp => target (VObj [(k, temp)])) Hk) as [t [Ht Heq]].
    exists t. split; [exact Ht|]. intros temp. rewrite Heq. reflexivity.
Qed.

Lemma pop_map_VStr keys :
  keys <> [] ->
  Js.pop (map VStr keys)
  = (VStr (last keys ""), map VStr (removelast keys)).
Proof.
  intros Hne. unfold Js.pop. f_equal.
  - induction keys as [|k [|k' keys] IH]; try congruence; try reflexivity.
    change (last (map VStr (k :: k' :: keys)) VUndef)
      with (last (map VStr (k' :: keys)) VUndef).
    rewrite IH by discriminate. reflexivity.
  - induction keys as [|k [|k' keys] IH]; try congruence; try reflexivity.
    change (removelast (map VStr (k :: k' :: keys)))
      with (VStr k :: removelast (map VStr (k' :: keys))).
    rewrite IH by discriminate. reflexivity.
Qed.

Lemma nest_removelast keys leaf :
  keys <> [] ->
  nest (removelast keys) (VObj [(last keys "", leaf)]) = nest keys leaf.
Proof.
  induction keys as [|k [|k' keys] IH]; intros Hne; try congruence;
    try reflexivity.
  change (VObj [(k, nest (removelast (k' :: keys))
                          (VObj [(last (k' :: keys) "", leaf)]))]
          = VObj [(k, nest (k' :: keys) leaf)]).
  rewrite IH by discriminate. reflexivity.
Qed.

Lemma forallb_removelast {A} (p : A -> bool) l :
  forallb p l = true -> forallb p (removelast l) = true.
Proof.
  induction l as [|x [|y l] IH]; simpl in *; auto.
  intros H. apply andb_true_iff in H. destruct H as [Hx H].
  rewrite Hx. simpl. apply IH. exact H.
Qed.

Lemma forallb_last {A} (p : A -> bool) l d :
  l <> [] -> forallb p l = true -> p (last l d) = true.
Proof.
  induction l as [|x [|y l] IH]; intros Hne H; try congruence.
  - simpl in *. apply andb_true_iff in H. tauto.
  - change (p (last (y :: l) d) = true). apply IH; [discriminate|].
    simpl in H. apply andb_true_iff in H. tauto.
Qed.

(** For a non-empty sequence of N keys the nested data has exactly N
    single-key levels, and the last key is popped off the array. *)
Lemma getNestedData_keys keys leaf :
  keys <> [] -> forallb notProto keys = true ->
  updateHelper.getNestedData (VArr (map VStr keys)) leaf
  = (Ret (nest keys leaf), VArr (map VStr (removelast keys))).
Proof.
  intros Hne Hk. unfold updateHelper.getNestedData. simpl Js.truthy. cbv iota.
  rewrite pop_map_VStr by exact Hne.
  destruct (nestLoop_nest (removelast keys) (fun temp => temp)
              (forallb_removelast _ _ Hk)) as [t [Ht Heq]].
  rewrite Ht. simpl.
  pose proof (forallb_last notProto keys "" Hne Hk) as Hl.
  apply negb_true_iff in Hl. rewrite Hl, defineProp_nil. simpl.
  rewrite Heq, nest_removelast by exact Hne. reflexivity.
Qed.

(** An absent path: the leaf command is the tree. *)
Lemma getNestedData_absent path leaf :
  Js.truthy path = false ->
  updateHelper.getNestedData path leaf = (Ret leaf, path).
Proof. intros H. unfold updateHelper.getNestedData. rewrite H. reflexivity. Qed.

(** C5, the code at the failing input: for an empty sequence of keys the
    leaf command is not the tree.  [pop] on the empty array gives
    [undefined], and the command is nested under the key ["undefined"];
    a pure update with the path [[]] writes that property. *)
Theorem getNestedData_empty_sequence :
  (forall leaf,
      updateHelper.getNestedData (VArr []) leaf
      = (Ret (VObj [("undefined", leaf)]), VArr []))
  /\ fst (updateSilent immutabilityHelper
            [VObj [("a", VNum 1)]; VStr "set"; VArr []; VNum 5])
     = Ret (VObj [("a", VNum 1); ("undefined", VNum 5)]).
Proof. split; reflexivity. Qed.

(** ** Apply layer *)

Lemma immutabilityHelper_descend source k sub :
  directive k = false ->
  immutabilityHelper source (VObj [(k, sub)])
  = (cur <- Js.getProp source k ;;
     next <- immutabilityHelper cur sub ;;
     match cur, next with
     | VUndef, VUndef => Outside
     | _, _ => Js.setProp source k next
     end).
Proof.
  unfold directive. intros H.
  apply orb_false_iff in H. destruct H as [H Hother].
  apply orb_false_iff in H. destruct H as [H Hsplice].
  apply orb_false_iff in H. destruct H as [Hset Hpush].
  simpl. rewrite Hset, Hpush, Hsplice.
  simpl in Hother. rewrite Hother. reflexivity.
Qed.

Lemma valueAt_defined keys source cur :
  valueAt source keys = Ret cur -> cur <> VUndef -> source <> VUndef.
Proof.
  destruct keys as [|k keys]; simpl.
  - intros [= ->]. auto.
  - intros H _ ->. discriminate.
Qed.

Lemma setProp_getProp source k cur next :
  notProto k = true -> Js.getProp source k = Ret cur -> cur <> VUndef ->
  exists source',
    Js.setProp source k next = Ret source'
    /\ Js.getProp source' k = Ret next.
Proof.
  intros Hk Hget Hcur. apply negb_true_iff in Hk.
  destruct source as [| | | | |l|o]; simpl in *; try discriminate.
  - destruct (Js.arrayIndex k) as [i|] eqn:Hi; [|discriminate].
    injection Hget as Hget.
    assert (Hlt : (N.to_nat i < length l)%nat).
    { destruct (Nat.lt_ge_cases (N.to_nat i) (length l)) as [|Hge]; [assumption|].
      rewrite nth_overflow in Hget by exact Hge. congruence. }
    apply Nat.ltb_lt in Hlt as Hb. rewrite Hb.
    eexists. split; [reflexivity|]. simpl. rewrite Hi.
    rewrite nth_replaceNth_same by exact Hlt. reflexivity.
  - rewrite Hk. eexists. split; [reflexivity|]. simpl.
    rewrite lookup_defineProp_same. reflexivity.
Qed.

(** The applier on the command tree of a path: the leaf command patches
    the value the path addresses, the rest of [source] stays. *)
Lemma immutabilityHelper_nest keys : forall source cur next leaf,
  forallb plainKey keys = true ->
  valueAt source keys = Ret cur -> cur <> VUndef ->
  immutabilityHelper cur leaf = Ret next ->
  exists source',
    immutabilityHelper source (nest keys leaf) = Ret source'
    /\ replaceAt source keys next = Ret source'
    /\ valueAt source' keys = Ret next.
Proof.
  induction keys as [|k keys IH]; intros source cur next leaf Hk Hat Hcur Hleaf.
  - simpl in *. injection Hat as ->. eauto.
  - simpl in Hk. apply andb_true_iff in Hk. destruct Hk as [Hk Hks].
    apply andb_true_iff in Hk. destruct Hk as [Hproto Hdir].
    apply negb_true_iff in Hdir.
    simpl in Hat. destruct (Js.getProp source k) as [c| |] eqn:Hget;
      try discriminate. simpl in Hat.
    destruct (IH c cur next leaf Hks Hat Hcur Hleaf) as (n & Hn & Hr & Hv).
    pose proof (valueAt_defined _ _ _ Hat Hcur) as Hc.
    destruct (setProp_getProp source k c n Hproto Hget Hc) as (s' & Hset & Hget').
    exists s'. change (nest (k :: keys) leaf) with (VObj [(k, nest keys leaf)]).
    rewrite immutabilityHelper_descend by exact Hdir. simpl.
    rewrite Hget. simpl. rewrite Hn, Hr. simpl.
    rewrite Hget'. simpl. repeat split; try assumption.
    destruct c; try assumption. congruence.
Qed.

Lemma plainKey_notProto keys :
  forallb plainKey keys = true -> forallb notProto keys = true.
Proof.
  induction keys as [|k keys IH]; simpl; [auto|]. intros H.
  apply andb_true_iff in H. destruct H as [H Hks].
  apply andb_true_iff in H. destruct H as [H _].
  rewrite H, IH; auto.
Qed.

Lemma getNestedData_pathOf keys leaf :
  forallb notProto keys = true ->
  fst (updateHelper.getNestedData (pathOf keys) leaf) = Ret (nest keys leaf).
Proof.
  intros Hk. destruct keys as [|k keys]; [reflexivity|].
  unfold pathOf. rewrite getNestedData_keys by (assumption || discriminate).
  reflexivity.
Qed.

Lemma getPathArray_pathOf keys : getPathArray (pathOf keys) = pathOf keys.
Proof. destruct keys; reflexivity. Qed.

(** A pure update through a path of plain keys: the operation's command
    patches the addressed value. *)
Lemma updateSilent_at (type : string) build source keys v cur next :
  commands.member type = Some build ->
  forallb plainKey keys = true ->
  valueAt source keys = Ret cur -> cur <> VUndef ->
  immutabilityHelper cur (build v) = Ret next ->
  exists source',
    fst (updateSilent immutabilityHelper [source; VStr type; pathOf keys; v])
    = Ret source'
    /\ replaceAt source keys next = Ret source'
    /\ valueAt source' keys = Ret next.
Proof.
  intros Hm Hk Hat Hcur Hleaf.
  destruct (immutabilityHelper_nest keys source cur next (build v) Hk Hat Hcur Hleaf)
    as (s' & Hs & Hr & Hv).
  exists s'. repeat split; try assumption.
  unfold updateSilent, arg. simpl nth. rewrite getPathArray_pathOf.
  unfold updateHelper.update, updateHelper.getImmutabilitySugar,
    updateHelper.getImmutabilitySugarCommand. simpl Js.toPropertyKey.
  simpl obind. rewrite Hm.
  pose proof (getNestedData_pathOf keys (build v) (plainKey_notProto _ Hk)) as Hn.
  destruct (updateHelper.getNestedData (pathOf keys) (build v)) as [r p'].
  simpl in Hn. subst r. destruct (pathOf keys); exact Hs.
Qed.






(** ** State-binding layer *)

Section BoundFacts.

Variable applier : value -> value -> outcome value.

Lemma updateNextState_one type path v :
  isPlainObject path = false ->
  updateNextState applier type path v = updateProp applier type path v.
Proof.
  intros H. destruct path; try discriminate H; simp updateNextState;
    reflexivity.
Qed.

(** The multi-path branch: one update per key, the key as its path and
    the associated value as its value. *)
Lemma updateNextState_each type o v :
  updateNextState applier type (VObj o) v
  = forEach (Js.keys o)
      (fun key =>
         bind (lift (Js.getProp (VObj o) key))
              (fun x => updateProp applier type (VStr key) x)).
Proof.
  simp updateNextState. simpl.
  generalize (Js.keys o) as ks. intros ks.
  induction ks as [|k ks IH]; simpl; [reflexivity|].
  rewrite IH. f_equal.
Qed.

End BoundFacts.

(** *** The cache of the last state *)

Lemma copy_entries entries : forall t,
  forallb notProto (Js.keys entries) = true ->
  fold_left copyEntry entries (Ret (VObj t))
  = Ret (VObj (fold_left defineEntry entries t)).
Proof.
  induction entries as [|[k x] entries IH]; intros t Hk; simpl in *.
  - reflexivity.
  - apply andb_true_iff in Hk. destruct Hk as [Hp Hk].
    apply negb_true_iff in Hp. rewrite Hp. apply IH. exact Hk.
Qed.

Lemma assignable_entries source :
  assignable source = true ->
  exists entries,
    ownEntries source = Ret entries
    /\ forallb notProto (Js.keys entries) = true.
Proof.
  destruct source; simpl; try discriminate; eauto.
Qed.

#[local] Arguments Object_assign : simpl never.

Lemma Object_assign_plain sources : forall t,
  forallb assignable sources = true ->
  exists t', Object_assign (VObj t) sources = Ret (VObj t').
Proof.
  induction sources as [|source sources IH]; intros t Hs; simpl in *.
  - eexists. reflexivity.
  - apply andb_true_iff in Hs. destruct Hs as [Hsrc Hs].
    destruct (assignable_entries source Hsrc) as (entries & He & Hk).
    unfold Object_assign; fold Object_assign. rewrite He. simpl.
    rewrite copy_entries by exact Hk. simpl. apply IH. exact Hs.
Qed.

Lemma assignable_last q :
  forallb assignable q = true -> assignable (last q VUndef) = true.
Proof.
  induction q as [|x [|y q] IH]; simpl in *; auto.
  - intros H. apply andb_true_iff in H. tauto.
  - intros H. apply andb_true_iff in H. apply IH. tauto.
Qed.

(** On an orderly host [getCachedLastState] returns: the cache, a plain
    object, if a queue is exposed and not null, and [undefined] if not.
    It leaves the committed state and the record of commits alone, and
    [lastState] is a plain object in both cases. *)
Lemma getCachedLastState_orderly h :
  orderly h = true ->
  exists cache h1 last,
    getCachedLastState h = (Ret cache, h1)
    /\ (if Js.truthy cache then cache else state h1) = VObj last
    /\ __lastState h1 = cache
    /\ state h1 = state h
    /\ setStateCalls h1 = setStateCalls h.
Proof.
  unfold orderly, getCachedLastState. intros H.
  apply andb_true_iff in H. destruct H as [H Hq].
  apply andb_true_iff in H. destruct H as [H Hc].
  apply andb_true_iff in H. destruct H as [Hobj Hst].
  destruct h as [rc st [[[q|]]|] c calls]; simpl in *;
    destruct st as [| | | | | |sto]; try discriminate.
  - pose proof (assignable_last q Hq) as Htop.
    destruct (Js.truthy c) eqn:Ht; simpl in Hc.
    + destruct c; try discriminate.
      destruct (Object_assign_plain [last q VUndef] props) as [t' ->].
      { simpl. rewrite Htop. reflexivity. }
      do 3 eexists. split; [reflexivity|]. simpl. repeat split; eauto.
    + destruct (Object_assign_plain [VObj sto; last q VUndef] []) as [t' ->].
      { simpl. simpl in Hst. rewrite Hst, Htop. reflexivity. }
      do 3 eexists. split; [reflexivity|]. simpl. repeat split; eauto.
  - do 3 eexists. split; [reflexivity|]. simpl. repeat split; eauto.
  - do 3 eexists. split; [reflexivity|]. simpl. repeat split; eauto.
Qed.

(** Reading the cache hands nothing to [setState]. *)
Lemma getCachedLastState_calls h :
  setStateCalls (snd (getCachedLastState h)) = setStateCalls h.
Proof.
  unfold getCachedLastState.
  destruct h as [rc st [[[q|]]|] c calls]; simpl; try reflexivity.
  destruct (if Js.truthy c then _ else _); reflexivity.
Qed.

(** [updateState] once the cache is read and [updateNextState] has run. *)
Lemma updateState_run applier h args cache h1 r f :
  getCachedLastState h = (Ret cache, h1) ->
  updateNextState applier (arg 0 args) (arg 1 args) (arg 2 args)
    (Frame (if Js.truthy cache then cache else state h1) [] (arg 1 args))
  = (r, f) ->
  updateState applier h args
  = let h2 := if Js.truthy cache then with_lastState (lastState f) h1
              else with_state (lastState f) h1 in
    match r with
    | Ret _ =>
        (if (length (Js.keys (nextState f)) =? 1)%nat
         then Js.getProp (VObj (nextState f)) (hd "" (Js.keys (nextState f)))
         else Ret (VObj (nextState f)),
         setState h2 (VObj (nextState f)), pathArray f)
    | Throws e => (Throws e, h2, pathArray f)
    | Outside => (Outside, h2, pathArray f)
    end.
Proof.
  intros Hc Hn. unfold updateState. rewrite Hc, Hn. reflexivity.
Qed.

Lemma setStateCalls_written cache last h1 :
  setStateCalls (if Js.truthy cache : bool then with_lastState last h1
                 else with_state last h1)
  = setStateCalls h1.
Proof. destruct (Js.truthy cache); reflexivity. Qed.

Lemma state_written cache last h1 :
  (if Js.truthy cache then cache else state h1) = last ->
  state (if Js.truthy cache : bool then with_lastState last h1
         else with_state last h1)
  = state h1.
Proof. destruct (Js.truthy cache); simpl; congruence. Qed.

(** C3: on an orderly host whose committed state is [{a: 0, b: 0, c: 0}],
    the bound update [('set', {a: 1, b: 2})] hands exactly the fragment
    [{a: 1, b: 2}] to [setState] and returns [{a: 1, b: 2}]; [c] is in
    neither, and the committed state is as before. *)
Theorem multi_path_set_example applier h :
  orderly h = true ->
  state h = VObj [("a", VNum 0); ("b", VNum 0); ("c", VNum 0)] ->
  let multi := VObj [("a", VNum 1); ("b", VNum 2)] in
  let fragment := [("a", VNum 1); ("b", VNum 2)] in
  exists h',
    updateState applier h [VStr "set"; multi] = (Ret (VObj fragment), h', multi)
    /\ setStateCalls h' = setStateCalls h ++ [VObj fragment]
    /\ state h' = state h
    /\ Js.lookup "c" fragment = None.
Proof.
  intros Ho Hst multi fragment.
  destruct (getCachedLastState_orderly h Ho)
    as (cache & h1 & last & Hc & Hlast & _ & Hst1 & Hcalls).
  assert (Hn : updateNextState applier (VStr "set") multi VUndef
                 (Frame (VObj last) [] multi)
               = (Ret tt, Frame (VObj last) fragment multi)).
  { unfold multi. rewrite updateNextState_each. reflexivity. }
  eexists. split.
  - rewrite (updateState_run applier h _ cache h1 (Ret tt)
               (Frame (VObj last) fragment multi) Hc)
      by (rewrite Hlast; exact Hn).
    reflexivity.
  - simpl. rewrite setStateCalls_written, Hcalls.
    rewrite state_written by exact Hlast. rewrite Hst1.
    repeat split; reflexivity.
Qed.

Lemma multi_path_set_example_witness :
  let h := Instance true (VObj [("a", VNum 0); ("b", VNum 0); ("c", VNum 0)])
             (Some (InternalInstance None)) VUndef [] in
  exists h',
    updateState immutabilityHelper h
      [VStr "set"; VObj [("a", VNum 1); ("b", VNum 2)]]
    = (Ret (VObj [("a", VNum 1); ("b", VNum 2)]), h',
       VObj [("a", VNum 1); ("b", VNum 2)])
    /\ setStateCalls h' = setStateCalls h ++ [VObj [("a", VNum 1); ("b", VNum 2)]]
    /\ state h' = state h
    /\ Js.lookup "c" [("a", VNum 1); ("b", VNum 2)] = None.
Proof.
  intros h.
  apply (multi_path_set_example immutabilityHelper h); reflexivity.
Defined.

(** *** One update *)

Lemma string_app_nil (s : string) : (s ++ "")%string = s.
Proof. induction s as [|c s IH]; simpl; [|rewrite IH]; reflexivity. Qed.

Lemma pathKeys_single k : isKey k = true -> pathKeys k = [k].
Proof.
  intros Hk. rewrite <- (string_app_nil k) at 1.
  rewrite pathKeys_key by (exact Hk || reflexivity). reflexivity.
Qed.

(** A string path never is the caller's array: destructuring it leaves
    the frame as it is. *)
Lemma destructPath_string p f :
  destructPath (VStr p) f
  = (Ret (hd VUndef (map VStr (pathKeys p)),
          if (length (tl (map VStr (pathKeys p))) =? 0)%nat then VNull
          else VArr (tl (map VStr (pathKeys p)))), f).
Proof. reflexivity. Qed.

Lemma toPropertyKey_propOf p :
  Js.toPropertyKey (hd VUndef (map VStr (pathKeys p))) = Ret (propOf p).
Proof. unfold propOf. destruct (pathKeys p); reflexivity. Qed.

Lemma inherited_notProto k : Js.inherited k = false -> (k =? "__proto__") = false.
Proof.
  unfold Js.inherited. simpl. intros H.
  repeat (apply orb_false_iff in H; destruct H as [? H]). assumption.
Qed.

Lemma update_set_root applier source remainPath v :
  (forall s x, applier s (commands.set x) = Ret x) ->
  Js.truthy remainPath = false ->
  updateHelper.update applier source (VStr "set") remainPath v
  = (Ret v, remainPath).
Proof.
  intros Hset Hr. unfold updateHelper.update, updateHelper.getImmutabilitySugar.
  simpl. rewrite getNestedData_absent by exact Hr. rewrite Hset. reflexivity.
Qed.

(** The general path when [prop] was not written in this call: the
    applier starts from [lastState[prop]]. *)
Lemma generalPath_first applier type path remainPath k v last next pa :
  Js.lookup k next = None -> Js.inherited k = false ->
  generalPath applier type path remainPath k v (Frame (VObj last) next pa)
  = bind (applyUpdate applier
            (match Js.lookup k last with Some b => b | None => VUndef end)
            type path remainPath v)
         (assignNextState k) (Frame (VObj last) next pa).
Proof.
  intros Hw Hi. unfold generalPath, bind, gets, lift, ret, Js.hasProp. simpl.
  rewrite Hw, Hi. simpl. rewrite Hi.
  destruct (Js.lookup k last); reflexivity.
Qed.

(** The general path when [prop] was written earlier in this call: the
    earlier result goes into [lastState], and the applier starts from it. *)
Lemma generalPath_again applier type path remainPath k v last next pa earlier :
  Js.lookup k next = Some earlier -> notProto k = true ->
  generalPath applier type path remainPath k v (Frame (VObj last) next pa)
  = bind (applyUpdate applier earlier type path remainPath v)
         (assignNextState k)
         (Frame (VObj (Js.defineProp k earlier last)) next pa).
Proof.
  intros Hw Hp. apply negb_true_iff in Hp.
  unfold generalPath, bind, gets, lift, ret, modify, Js.hasProp. simpl.
  rewrite Hw. simpl. rewrite Hp. simpl.
  rewrite lookup_defineProp_same. reflexivity.
Qed.

Lemma applyUpdate_set_root applier source path remainPath v f :
  (forall s x, applier s (commands.set x) = Ret x) ->
  Js.truthy remainPath = false ->
  applyUpdate applier source (VStr "set") path remainPath v f = (Ret v, f).
Proof.
  intros Hset Hr. unfold applyUpdate.
  rewrite update_set_root by assumption.
  destruct path, remainPath; try reflexivity; discriminate.
Qed.

(** ['set'] on a single key: the value goes into the fragment as it is,
    whatever the applier and whatever the value. *)
Lemma updateProp_set_key applier k x f :
  isKey k = true -> notProto k = true ->
  updateProp applier (VStr "set") (VStr k) x f
  = (Ret tt, setNextState (Js.defineProp k x (nextState f)) f).
Proof.
  intros Hk Hp. apply negb_true_iff in Hp.
  unfold updateProp, bind. rewrite destructPath_string.
  rewrite (pathKeys_single k Hk). simpl.
  unfold fastPath, assignNextState, bind, gets, lift, modify. rewrite Hp.
  reflexivity.
Qed.

(** C7, as the specification states it, fails: the recursive call of line
    118 passes the key as [path] and the value as [value], and only
    [path] is tested by [isPlainObject].  With committed state
    [{a: {x: 0, y: 0}}], the update [('set', {a: {x: 1}})] commits the
    plain mapping [{x: 1}] itself as the new value of [a]; expanded the
    same way it would be the sub-update of [x] to 1. *)
Lemma nested_mapping_not_expanded :
  let h := Instance true (VObj [("a", VObj [("x", VNum 0); ("y", VNum 0)])])
             (Some (InternalInstance None)) VUndef [] in
  let nested := VObj [("x", VNum 1)] in
  let multi := VObj [("a", nested)] in
  isPlainObject nested = true
  /\ setStateCalls (snd (fst (updateState immutabilityHelper h [VStr "set"; multi])))
     = [VObj [("a", nested)]]
  /\ nextState (snd (expandingUpdate immutabilityHelper (VStr "set") multi VUndef
                       (Frame (state h) [] multi)))
     = [("x", VNum 1)]
  /\ nextState (snd (updateNextState immutabilityHelper (VStr "set") multi VUndef
                       (Frame (state h) [] multi)))
     <> [("x", VNum 1)].
Proof.
  simpl. repeat split; try reflexivity. discriminate.
Qed.

(** C7, amended: in a bound multi-path update every top-level key is the
    path of one update and its associated value is the update value as it
    is, plain mapping or not: nothing is expanded below the top level.
    With ['set'] and a single-key path the value is the new value of the
    property. *)
Theorem multi_path_values_are_literal applier type o v :
  updateNextState applier type (VObj o) v
  = forEach (Js.keys o)
      (fun key =>
         bind (lift (Js.getProp (VObj o) key))
              (fun x => updateProp applier type (VStr key) x))
  /\ forall k x f,
       isKey k = true -> notProto k = true ->
       updateNextState applier (VStr "set") (VObj [(k, x)]) v f
       = (Ret tt, setNextState (Js.defineProp k x (nextState f)) f).
Proof.
  split; [apply updateNextState_each|].
  intros k x f Hk Hp. rewrite updateNextState_each. simpl.
  unfold bind at 1. unfold bind at 1. unfold lift. simpl.
  rewrite String.eqb_refl, updateProp_set_key by assumption. reflexivity.
Qed.

Lemma multi_path_values_are_literal_witness :
  updateNextState immutabilityHelper (VStr "set")
    (VObj [("a", VObj [("x", VNum 1)])]) VUndef
    (Frame (VObj [("a", VObj [("x", VNum 0); ("y", VNum 0)])]) [] VUndef)
  = (Ret tt,
     Frame (VObj [("a", VObj [("x", VNum 0); ("y", VNum 0)])])
           [("a", VObj [("x", VNum 1)])] VUndef).
Proof.
  apply (proj2 (multi_path_values_are_literal immutabilityHelper (VStr "set")
                  [] VUndef) "a" (VObj [("x", VNum 1)])); reflexivity.
Defined.

(** *** An operation without command builder *)

Section UnknownOperation.

Variable applier : value -> value -> outcome value.
Variables (type : value) (k : string).
Hypothesis type_key : Js.toPropertyKey type = Ret k.
Hypothesis no_builder : commands.member k = None.
Hypothesis not_inherited : Js.inherited k = false.

Lemma getImmutabilitySugarCommand_unknown v :
  updateHelper.getImmutabilitySugarCommand type v = Throws TypeError.
Proof.
  unfold updateHelper.getImmutabilitySugarCommand.
  rewrite type_key. simpl. rewrite no_builder, not_inherited. reflexivity.
Qed.

Lemma update_unknown source path v :
  updateHelper.update applier source type path v = (Throws TypeError, path).
Proof.
  unfold updateHelper.update, updateHelper.getImmutabilitySugar.
  rewrite getImmutabilitySugarCommand_unknown. reflexivity.
Qed.

Lemma isSet_unknown : isSet type = false.
Proof.
  destruct type as [| | | |s| |]; try reflexivity. simpl.
  destruct (s =? "set") eqn:E; [|reflexivity].
  apply String.eqb_eq in E. subst s.
  simpl in type_key. injection type_key as <-. discriminate no_builder.
Qed.

Lemma updateSilent_unknown args :
  arg 1 args = type ->
  updateSilent applier args = (Throws TypeError, arg 2 args).
Proof.
  intros Ht. unfold updateSilent. rewrite Ht, update_unknown.
  destruct (arg 2 args); reflexivity.
Qed.

(** The general path of the first update of a call: the lookup of the
    builder throws before anything is written. *)
Lemma generalPath_unknown path remainPath prop v last pa :
  Js.inherited prop = false ->
  exists pa',
    generalPath applier type path remainPath prop v (Frame (VObj last) [] pa)
    = (Throws TypeError, Frame (VObj last) [] pa').
Proof.
  intros Hp. rewrite generalPath_first by (reflexivity || exact Hp).
  unfold bind, applyUpdate. rewrite update_unknown.
  destruct path, remainPath; eexists; reflexivity.
Qed.

Lemma updateProp_unknown path prop v last pa :
  isPlainObject path = false ->
  firstProp path = Some prop -> Js.inherited prop = false ->
  exists pa',
    updateProp applier type path v (Frame (VObj last) [] pa)
    = (Throws TypeError, Frame (VObj last) [] pa').
Proof.
  intros Hplain Hfirst Hp.
  destruct path as [| | | |p|l|]; try discriminate.
  - injection Hfirst as <-.
    unfold updateProp, bind at 1. rewrite destructPath_string.
    unfold bind at 1, lift at 1. rewrite toPropertyKey_propOf.
    rewrite isSet_unknown, andb_false_r.
    apply generalPath_unknown. exact Hp.
  - unfold firstProp in Hfirst.
    unfold updateProp, bind at 1, destructPath, getDestructPath. simpl.
    unfold bind at 1, lift at 1.
    destruct (Js.toPropertyKey (hd VUndef l)) as [k'| |]; try discriminate.
    injection Hfirst as ->.
    rewrite isSet_unknown, andb_false_r.
    apply generalPath_unknown. exact Hp.
Qed.

Lemma updateNextState_unknown path prop v last pa :
  firstProp path = Some prop -> Js.inherited prop = false ->
  exists pa',
    updateNextState applier type path v (Frame (VObj last) [] pa)
    = (Throws TypeError, Frame (VObj last) [] pa').
Proof.
  intros Hfirst Hp.
  destruct (isPlainObject path) eqn:Hplain.
  - destruct path as [| | | | | |[|[p x] o]]; try discriminate.
    injection Hfirst as <-.
    rewrite updateNextState_each. simpl.
    unfold bind at 1. unfold bind at 1. unfold lift at 1. simpl.
    rewrite String.eqb_refl.
    destruct (updateProp_unknown (VStr p) (propOf p) x last pa
                eq_refl eq_refl Hp) as [pa' ->].
    eexists. reflexivity.
  - rewrite updateNextState_one by exact Hplain.
    apply (updateProp_unknown path prop); assumption.
Qed.

End UnknownOperation.

(** C9, as the specification states it, fails: the builder is looked up
    once per path, and a bound multi-path update with the empty mapping
    has no path.  With the operation ['foo'] it returns [{}] and commits
    the empty fragment. *)
Lemma unknown_operation_empty_mapping :
  let h := Instance true (VObj [("a", VNum 0)]) (Some (InternalInstance None))
             VUndef [] in
  commands.member "foo" = None
  /\ exists h',
       update immutabilityHelper (Some h) [VStr "foo"; VObj []]
       = (Ret (VObj []), Some h', VObj [])
       /\ setStateCalls h' = [VObj []].
Proof.
  simpl. split; [reflexivity|]. eexists. split; reflexivity.
Qed.

(** C9, amended: an update call whose operation tag names no member of
    [commands] (own or inherited) and that has a path to update (every
    pure call; a bound call on an orderly host with a path, or a
    non-empty mapping of paths, whose first property is no inherited
    name) throws at the lookup, whatever the applier: the caller gets a
    [TypeError] and nothing is handed to [setState]. *)
Theorem unknown_operation_throws applier type k :
  Js.toPropertyKey type = Ret k ->
  commands.member k = None ->
  Js.inherited k = false ->
  (forall this args,
      isBound this = false -> arg 1 args = type ->
      update applier this args = (Throws TypeError, this, arg 2 args))
  /\ (forall h args prop,
        isBound (Some h) = true -> orderly h = true -> arg 0 args = type ->
        firstProp (arg 1 args) = Some prop -> Js.inherited prop = false ->
        exists h' path',
          update applier (Some h) args = (Throws TypeError, Some h', path')
          /\ setStateCalls h' = setStateCalls h).
Proof.
  intros Hk Hm Hi. split.
  - intros this args Hb Ht.
    assert (Hs := updateSilent_unknown applier type k Hk Hm Hi args Ht).
    destruct this as [h|]; simpl in *; [rewrite Hb|]; rewrite Hs; reflexivity.
  - intros h args prop Hb Ho Ht Hfirst Hp. simpl in Hb.
    destruct (getCachedLastState_orderly h Ho)
      as (cache & h1 & last & Hc & Hlast & _ & _ & Hcalls).
    destruct (updateNextState_unknown applier type k Hk Hm Hi (arg 1 args) prop
                (arg 2 args) last (arg 1 args) Hfirst Hp) as [pa' Hn].
    do 2 eexists. unfold update. rewrite Hb.
    rewrite (updateState_run applier h args cache h1 (Throws TypeError)
               (Frame (VObj last) [] pa') Hc)
      by (rewrite Hlast, Ht; exact Hn).
    simpl. split; [reflexivity|].
    rewrite setStateCalls_written. exact Hcalls.
Qed.

Lemma unknown_operation_throws_witness :
  let h := Instance true (VObj [("a", VNum 0)]) (Some (InternalInstance None))
             VUndef [] in
  update immutabilityHelper None [VObj [("a", VNum 0)]; VStr "foo"; VStr "a"; VNum 1]
  = (Throws TypeError, None, VStr "a")
  /\ exists h' path',
       update immutabilityHelper (Some h) [VStr "foo"; VObj [("a", VNum 1)]]
       = (Throws TypeError, Some h', path')
       /\ setStateCalls h' = setStateCalls h.
Proof.
  intros h.
  destruct (unknown_operation_throws immutabilityHelper (VStr "foo") "foo"
              eq_refl eq_refl eq_refl) as [Hfree Hbound].
  split.
  - apply (Hfree None [VObj [("a", VNum 0)]; VStr "foo"; VStr "a"; VNum 1]);
      reflexivity.
  - apply (Hbound h [VStr "foo"; VObj [("a", VNum 1)]] "a"); reflexivity.
Defined.

(** *** The fast path *)

(** C8, as the specification states it, fails: the general path reads
    the property's last-known value from the last state (line 130), and a
    component without state has none.  On a host whose state is [null]
    the bound call [update('set', 'a', 1)] takes the fast path (line
    124), returns 1 and hands [{a: 1}] to [setState]; the general path on
    the same update throws a [TypeError] at the read and leaves the
    fragment empty. *)
Lemma fast_path_without_state :
  let h := Instance true VNull None VUndef [] in
  let f := Frame VNull [] (VStr "a") in
  (exists h',
     updateState immutabilityHelper h [VStr "set"; VStr "a"; VNum 1]
     = (Ret (VNum 1), h', VStr "a")
     /\ setStateCalls h' = [VObj [("a", VNum 1)]])
  /\ updateProp immutabilityHelper (VStr "set") (VStr "a") (VNum 1) f
     = (Ret tt, Frame VNull [("a", VNum 1)] (VStr "a"))
  /\ generalPath immutabilityHelper (VStr "set") (VStr "a") VNull "a" (VNum 1) f
     = (Throws TypeError, f)
  /\ nextState
       (snd (generalPath immutabilityHelper (VStr "set") (VStr "a") VNull "a"
               (VNum 1) f))
     <> nextState
          (snd (updateProp immutabilityHelper (VStr "set") (VStr "a") (VNum 1) f)).
Proof.
  simpl. repeat split; try reflexivity.
  - eexists. split; reflexivity.
  - discriminate.
Qed.

(** C8, amended: when the path has no segment left after its first key
    and the operation is ['set'], the update puts the raw value into the
    fragment whatever the applier and the last state are (the applier is
    not consulted: an applier that always throws changes nothing): in the
    fragment the property holds the value and every other property is as
    before.  When the last state is a plain object, the general path,
    with an applier whose root-level [$set] command replaces the whole
    value, leaves the same fragment; when the last state is [null] or
    [undefined], the general path throws a [TypeError] and leaves the
    fragment as it was. *)
Theorem fast_path_agrees applier path prop remainPath path' k v f :
  getDestructPath path = (Ret (prop, remainPath), path') ->
  Js.truthy remainPath = false ->
  Js.toPropertyKey prop = Ret k ->
  Js.inherited k = false ->
  let f0 := match path with VArr _ => setPathArray path' f | _ => f end in
  let fragment := Js.defineProp k v (nextState f) in
  (forall other,
      updateProp other (VStr "set") path v f
      = (Ret tt, setNextState fragment f0))
  /\ Js.lookup k fragment = Some v
  /\ (forall k', k' <> k -> Js.lookup k' fragment = Js.lookup k' (nextState f))
  /\ (forall last,
        (forall s x, applier s (commands.set x) = Ret x) ->
        lastState f = VObj last ->
        exists f',
          generalPath applier (VStr "set") path remainPath k v f0 = (Ret tt, f')
          /\ nextState f' = fragment)
  /\ (lastState f = VNull \/ lastState f = VUndef ->
      generalPath applier (VStr "set") path remainPath k v f0
      = (Throws TypeError, f0)).
Proof.
  intros Hd Hr Hk Hi f0 fragment.
  pose proof (inherited_notProto k Hi) as Hp.
  assert (Hf0 : destructPath path f = (Ret (prop, remainPath), f0)).
  { unfold destructPath. rewrite Hd. reflexivity. }
  destruct f as [l next pa].
  assert (Hf0' : exists pa', f0 = Frame l next pa').
  { unfold f0. destruct path; eexists; reflexivity. }
  destruct Hf0' as [pa' Hf0'].
  split; [|split; [|split; [|split]]].
  - intros other. unfold updateProp, bind at 1. rewrite Hf0.
    unfold bind at 1, lift at 1. rewrite Hk, Hr. simpl.
    unfold fastPath, assignNextState, bind, gets, lift, modify.
    rewrite Hp, Hf0'. reflexivity.
  - apply lookup_defineProp_same.
  - intros k' Hne. apply lookup_defineProp_other. exact Hne.
  - intros last Hset Hlast. simpl in Hlast. subst l. rewrite Hf0'.
    destruct (Js.lookup k next) as [earlier|] eqn:Hw.
    + rewrite (generalPath_again _ _ _ _ _ _ _ _ _ earlier Hw)
        by (unfold notProto; rewrite Hp; reflexivity).
      unfold bind. rewrite applyUpdate_set_root by assumption.
      unfold assignNextState, bind, gets, lift, modify. rewrite Hp.
      eexists. split; reflexivity.
    + rewrite generalPath_first by assumption.
      unfold bind. rewrite applyUpdate_set_root by assumption.
      unfold assignNextState, bind, gets, lift, modify. rewrite Hp.
      eexists. split; reflexivity.
  - intros Hnone. simpl in Hnone. rewrite Hf0'.
    unfold generalPath, bind, gets, lift, ret, modify, Js.hasProp. simpl.
    destruct (Js.lookup k next) as [earlier|] eqn:Hw; simpl;
      rewrite ?Hi; destruct Hnone as [->| ->]; reflexivity.
Qed.

Lemma fast_path_agrees_witness :
  let f := Frame (VObj [("a", VNum 0); ("c", VNum 0)]) [("c", VNum 1)]
             (VStr "a") in
  (forall other,
      updateProp other (VStr "set") (VStr "a") (VNum 5) f
      = (Ret tt,
         Frame (VObj [("a", VNum 0); ("c", VNum 0)])
               [("c", VNum 1); ("a", VNum 5)] (VStr "a")))
  /\ exists f',
       generalPath immutabilityHelper (VStr "set") (VStr "a") VNull "a" (VNum 5) f
       = (Ret tt, f')
       /\ nextState f' = [("c", VNum 1); ("a", VNum 5)].
Proof.
  intros f.
  destruct (fast_path_agrees immutabilityHelper (VStr "a") (VStr "a") VNull
              (VStr "a") "a" (VNum 5) f eq_refl eq_refl eq_refl eq_refl)
    as (Hfast & _ & _ & Hgeneral & _).
  split; [exact Hfast|].
  apply (Hgeneral [("a", VNum 0); ("c", VNum 0)]); reflexivity.
Defined.

(** *** Two paths into one property *)

Lemma updateProp_string applier type p v f :
  updateProp applier type (VStr p) v f
  = if takesGeneralPath type p
    then generalPath applier type (VStr p) (remainOf p) (propOf p) v f
    else fastPath (propOf p) v f.
Proof.
  unfold updateProp, bind at 1. rewrite destructPath_string.
  unfold bind at 1, lift at 1. rewrite toPropertyKey_propOf.
  unfold takesGeneralPath, remainOf.
  destruct (negb _ && isSet type); reflexivity.
Qed.

Lemma applyUpdate_string applier source type p remainPath v f :
  applyUpdate applier source type (VStr p) remainPath v f
  = (fst (updateHelper.update applier source type remainPath v), f).
Proof.
  unfold applyUpdate.
  destruct (updateHelper.update applier source type remainPath v).
  reflexivity.
Qed.

Lemma assignNextState_run k x f :
  (k =? "__proto__") = false ->
  assignNextState k x f = (Ret tt, setNextState (Js.defineProp k x (nextState f)) f).
Proof.
  intros Hp. unfold assignNextState, bind, gets, lift, modify. rewrite Hp.
  reflexivity.
Qed.

(** The first update of a property in a call. *)
Lemma updateProp_first applier type p v last next pa x :
  Js.lookup (propOf p) next = None ->
  Js.inherited (propOf p) = false ->
  computed applier type p v
    (match Js.lookup (propOf p) last with Some b => b | None => VUndef end)
  = Ret x ->
  updateProp applier type (VStr p) v (Frame (VObj last) next pa)
  = (Ret tt, Frame (VObj last) (Js.defineProp (propOf p) x next) pa).
Proof.
  intros Hw Hi Hx. pose proof (inherited_notProto _ Hi) as Hp.
  rewrite updateProp_string. unfold computed in Hx.
  destruct (takesGeneralPath type p).
  - rewrite generalPath_first by assumption.
    unfold bind. rewrite applyUpdate_string, Hx.
    rewrite assignNextState_run by exact Hp. reflexivity.
  - injection Hx as <-. unfold fastPath.
    rewrite assignNextState_run by exact Hp. reflexivity.
Qed.

(** A later update of the same property in the call. *)
Lemma updateProp_again applier type p v last next pa earlier x :
  Js.lookup (propOf p) next = Some earlier ->
  Js.inherited (propOf p) = false ->
  computed applier type p v earlier = Ret x ->
  updateProp applier type (VStr p) v (Frame (VObj last) next pa)
  = (Ret tt,
     Frame (VObj (if takesGeneralPath type p
                  then Js.defineProp (propOf p) earlier last else last))
           (Js.defineProp (propOf p) x next) pa).
Proof.
  intros Hw Hi Hx. pose proof (inherited_notProto _ Hi) as Hp.
  rewrite updateProp_string. unfold computed in Hx.
  destruct (takesGeneralPath type p).
  - rewrite (generalPath_again _ _ _ _ _ _ _ _ _ earlier Hw)
      by (unfold notProto; rewrite Hp; reflexivity).
    unfold bind. rewrite applyUpdate_string, Hx.
    rewrite assignNextState_run by exact Hp. reflexivity.
  - injection Hx as <-. unfold fastPath.
    rewrite assignNextState_run by exact Hp. reflexivity.
Qed.

Lemma defineProp_twice k x1 x2 : Js.defineProp k x2 [(k, x1)] = [(k, x2)].
Proof.
  unfold Js.defineProp. simpl. rewrite String.eqb_refl. simpl.
  rewrite ?String.eqb_refl. reflexivity.
Qed.

(** *** A mapping of any number of paths *)

(** One update of a string path, whatever its outcome: it starts from the
    earlier result for its property if there is one, and from the last
    state if not. *)
Lemma updateProp_fresh applier type p v last next pa :
  Js.inherited (propOf p) = false ->
  updateProp applier type (VStr p) v (Frame (VObj last) next pa)
  = match Js.lookup (propOf p) next with
    | Some earlier =>
        let last' := if takesGeneralPath type p
                     then Js.defineProp (propOf p) earlier last else last in
        match computed applier type p v earlier with
        | Ret x => (Ret tt, Frame (VObj last') (Js.defineProp (propOf p) x next) pa)
        | Throws e => (Throws e, Frame (VObj last') next pa)
        | Outside => (Outside, Frame (VObj last') next pa)
        end
    | None =>
        match computed applier type p v
                (match Js.lookup (propOf p) last with
                 | Some b => b
                 | None => VUndef
                 end) with
        | Ret x => (Ret tt, Frame (VObj last) (Js.defineProp (propOf p) x next) pa)
        | Throws e => (Throws e, Frame (VObj last) next pa)
        | Outside => (Outside, Frame (VObj last) next pa)
        end
    end.
Proof.
  intros Hi. pose proof (inherited_notProto _ Hi) as Hp.
  rewrite updateProp_string. unfold computed.
  destruct (Js.lookup (propOf p) next) as [earlier|] eqn:Hw;
    destruct (takesGeneralPath type p); cbv zeta.
  - rewrite (generalPath_again _ _ _ _ _ _ _ _ _ earlier Hw)
      by (unfold notProto; rewrite Hp; reflexivity).
    unfold bind. rewrite applyUpdate_string.
    destruct (fst _); try reflexivity.
    apply assignNextState_run. exact Hp.
  - unfold fastPath. apply assignNextState_run. exact Hp.
  - rewrite generalPath_first by assumption.
    unfold bind. rewrite applyUpdate_string.
    destruct (fst _); try reflexivity.
    apply assignNextState_run. exact Hp.
  - unfold fastPath. apply assignNextState_run. exact Hp.
Qed.

Lemma lookup_entry (o : object) p v :
  NoDup (Js.keys o) -> In (p, v) o -> Js.lookup p o = Some v.
Proof.
  induction o as [|[p' v'] o IH]; simpl; intros Hnd Hin; [contradiction|].
  inversion Hnd as [|? ? Hnotin Hnd']; subst.
  destruct Hin as [Heq | Hin].
  - injection Heq as -> ->. rewrite String.eqb_refl. reflexivity.
  - destruct (p =? p') eqn:E.
    + apply String.eqb_eq in E. subst p'. exfalso. apply Hnotin.
      apply (in_map fst) in Hin. exact Hin.
    + apply IH; assumption.
Qed.

Section Freshest.

Variable applier : value -> value -> outcome value.
Variables (type : value) (o last : object) (pa : value).

Lemma agrees_written current frag k x :
  agreesWith last current frag -> agreesWith last current (Js.defineProp k x frag).
Proof.
  intros H k' Hk'. apply H.
  destruct (String.eqb_spec k' k) as [->|Hne].
  - rewrite lookup_defineProp_same in Hk'. discriminate.
  - rewrite lookup_defineProp_other in Hk' by exact Hne. exact Hk'.
Qed.

Lemma agrees_rolled current frag k earlier x :
  agreesWith last current frag ->
  agreesWith last (Js.defineProp k earlier current) (Js.defineProp k x frag).
Proof.
  intros H k' Hk'.
  destruct (String.eqb_spec k' k) as [->|Hne].
  - rewrite lookup_defineProp_same in Hk'. discriminate.
  - rewrite lookup_defineProp_other in Hk' by exact Hne.
    rewrite lookup_defineProp_other by exact Hne. apply H. exact Hk'.
Qed.

Lemma forEach_freshest entries : forall current frag,
  (forall p v, In (p, v) entries ->
               Js.lookup p o = Some v /\ Js.inherited (propOf p) = false) ->
  agreesWith last current frag ->
  exists f',
    forEach (Js.keys entries) (updateKey applier type o)
      (Frame (VObj current) frag pa)
    = (_ <- freshest applier type entries last frag ;; Ret tt, f')
    /\ forall frag',
         freshest applier type entries last frag = Ret frag' ->
         nextState f' = frag'.
Proof.
  induction entries as [|[p v] entries IH]; intros current frag Hin Hagree.
  - simpl. eexists. split; [reflexivity|]. intros frag' [= <-]. reflexivity.
  - destruct (Hin p v (or_introl eq_refl)) as [Hlook Hinh].
    assert (Hin' : forall p' v', In (p', v') entries ->
                     Js.lookup p' o = Some v' /\ Js.inherited (propOf p') = false).
    { intros p' v' H. apply Hin. right. exact H. }
    simpl Js.keys. simpl forEach. unfold bind at 1. unfold updateKey at 1.
    unfold bind at 1, lift at 1. simpl Js.getProp. rewrite Hlook.
    rewrite updateProp_fresh by exact Hinh. simpl freshest.
    destruct (Js.lookup (propOf p) frag) as [earlier|] eqn:Hw; cbv zeta.
    + destruct (computed applier type p v earlier) as [x| |]; simpl;
        try (eexists; split; [reflexivity | discriminate]).
      destruct (takesGeneralPath type p).
      * apply IH; [exact Hin' | apply agrees_rolled; exact Hagree].
      * apply IH; [exact Hin' | apply agrees_written; exact Hagree].
    + rewrite (Hagree _ Hw).
      destruct (computed applier type p v _) as [x| |]; simpl;
        try (eexists; split; [reflexivity | discriminate]).
      apply IH; [exact Hin' | apply agrees_written; exact Hagree].
Qed.

End Freshest.

(** A multi-path update builds the fragment that the updates build one
    after the other, each from the freshest value of its property: the
    result of the latest earlier update of that property in the call, or
    the last state's value if there is none.  It fails where the first of
    them fails. *)
Lemma updateNextState_freshest applier type o v last pa :
  NoDup (Js.keys o) ->
  (forall p, In p (Js.keys o) -> Js.inherited (propOf p) = false) ->
  exists f',
    updateNextState applier type (VObj o) v (Frame (VObj last) [] pa)
    = (_ <- freshest applier type o last [] ;; Ret tt, f')
    /\ forall frag,
         freshest applier type o last [] = Ret frag -> nextState f' = frag.
Proof.
  intros Hnd Hinh. rewrite updateNextState_each.
  change (fun key => bind (lift (Js.getProp (VObj o) key))
                          (fun x => updateProp applier type (VStr key) x))
    with (updateKey applier type o).
  apply (forEach_freshest applier type o last pa o last []).
  - intros p x Hin. split.
    + apply lookup_entry; assumption.
    + apply Hinh. apply (in_map fst) in Hin. exact Hin.
  - intros k _. reflexivity.
Qed.

(** C4: in the general path, when the property was already written in
    this call, the earlier result is put into the working last state and
    the applier computes the later update from it.  So a multi-path update
    whose two paths resolve to the same top-level property commits, for
    that property, the later update applied to the result of the earlier
    one, and returns it; and a multi-path update of any number of paths
    builds the fragment in which every update started from the freshest
    value of its property. *)
Theorem colliding_updates_compose applier type :
  (forall path remainPath k v last next pa earlier,
      Js.lookup k next = Some earlier -> notProto k = true ->
      generalPath applier type path remainPath k v (Frame (VObj last) next pa)
      = bind (applyUpdate applier earlier type path remainPath v)
             (assignNextState k)
             (Frame (VObj (Js.defineProp k earlier last)) next pa))
  /\ (forall h cache h1 last p1 v1 p2 v2 k x1 x2,
        getCachedLastState h = (Ret cache, h1) ->
        (if Js.truthy cache then cache else state h1) = VObj last ->
        p1 <> p2 -> propOf p1 = k -> propOf p2 = k -> Js.inherited k = false ->
        computed applier type p1 v1
          (match Js.lookup k last with Some b => b | None => VUndef end)
        = Ret x1 ->
        computed applier type p2 v2 x1 = Ret x2 ->
        let multi := VObj [(p1, v1); (p2, v2)] in
        exists h',
          updateState applier h [type; multi] = (Ret x2, h', multi)
          /\ setStateCalls h' = setStateCalls h ++ [VObj [(k, x2)]]
          /\ (if Js.truthy cache then __lastState h' else state h')
             = VObj (if takesGeneralPath type p2
                     then Js.defineProp k x1 last else last))
  /\ (forall o v last pa,
        NoDup (Js.keys o) ->
        (forall p, In p (Js.keys o) -> Js.inherited (propOf p) = false) ->
        exists f',
          updateNextState applier type (VObj o) v (Frame (VObj last) [] pa)
          = (_ <- freshest applier type o last [] ;; Ret tt, f')
          /\ forall frag,
               freshest applier type o last [] = Ret frag ->
               nextState f' = frag).
Proof.
  split; [|split; [|intros o v last pa; apply updateNextState_freshest]].
  - intros. apply generalPath_again; assumption.
  - intros h cache h1 last p1 v1 p2 v2 k x1 x2 Hc Hlast Hne Hk1 Hk2 Hi Hx1 Hx2 multi.
    subst k.
    assert (Hn : updateNextState applier type multi VUndef
                   (Frame (VObj last) [] multi)
                 = (Ret tt,
                    Frame (VObj (if takesGeneralPath type p2
                                 then Js.defineProp (propOf p1) x1 last else last))
                          [(propOf p1, x2)] multi)).
    { unfold multi. rewrite updateNextState_each. simpl.
      apply String.eqb_neq in Hne. rewrite String.eqb_sym in Hne.
      unfold bind at 1. unfold bind at 1. unfold lift at 1. simpl.
      rewrite String.eqb_refl.
      rewrite (updateProp_first applier type p1 v1 last [] _ x1)
        by (assumption || reflexivity).
      rewrite defineProp_nil.
      unfold bind at 1. unfold bind at 1. unfold lift at 1. simpl.
      rewrite Hne, String.eqb_refl.
      rewrite (updateProp_again applier type p2 v2 last
                 [(propOf p1, x1)] _ x1 x2).
      - rewrite Hk2, defineProp_twice. reflexivity.
      - rewrite Hk2. simpl. rewrite String.eqb_refl. reflexivity.
      - rewrite Hk2. exact Hi.
      - exact Hx2. }
    eexists. split.
    + rewrite (updateState_run applier h _ cache h1 (Ret tt) _ Hc)
        by (rewrite Hlast; exact Hn).
      simpl. rewrite String.eqb_refl. reflexivity.
    + simpl. rewrite setStateCalls_written.
      pose proof (getCachedLastState_calls h) as Hcalls.
      rewrite Hc in Hcalls. simpl in Hcalls. rewrite Hcalls.
      split; [reflexivity|].
      destruct (Js.truthy cache); reflexivity.
Qed.

Lemma colliding_updates_compose_witness :
  let h := Instance true (VObj [("a", VObj [("x", VNum 0); ("y", VNum 0)])])
             (Some (InternalInstance None)) VUndef [] in
  let o := [("a.x", VNum 1); ("a.y", VNum 2)] in
  (exists h',
      updateState immutabilityHelper h [VStr "set"; VObj o]
      = (Ret (VObj [("x", VNum 1); ("y", VNum 2)]), h', VObj o)
      /\ setStateCalls h' = [VObj [("a", VObj [("x", VNum 1); ("y", VNum 2)])]]
      /\ state h' = VObj [("a", VObj [("x", VNum 1); ("y", VNum 0)])])
  /\ (exists f',
        updateNextState immutabilityHelper (VStr "set") (VObj o) VUndef
          (Frame (state h) [] (VObj o))
        = (Ret tt, f')
        /\ forall frag,
             Ret [("a", VObj [("x", VNum 1); ("y", VNum 2)])] = Ret frag ->
             nextState f' = frag).
Proof.
  intros h o.
  destruct (colliding_updates_compose immutabilityHelper (VStr "set"))
    as (_ & Htwo & Hany).
  split.
  - exact (Htwo h VUndef h [("a", VObj [("x", VNum 0); ("y", VNum 0)])]
             "a.x" (VNum 1) "a.y" (VNum 2) "a"
             (VObj [("x", VNum 1); ("y", VNum 0)])
             (VObj [("x", VNum 1); ("y", VNum 2)])
             eq_refl eq_refl ltac:(discriminate) eq_refl eq_refl eq_refl
             eq_refl eq_refl).
  - apply (Hany o VUndef [("a", VObj [("x", VNum 0); ("y", VNum 0)])] (VObj o)).
    + repeat constructor; simpl; intuition discriminate.
    + simpl. intros p [<- | [<- | []]]; reflexivity.
Defined.

(** *** The caller's path array *)

Lemma length_removelast {A} (l : list A) :
  l <> [] -> (length (removelast l) < length l)%nat.
Proof.
  induction l as [|x [|y l] IH]; intros H; try congruence; simpl in *.
  - lia.
  - assert (y :: l <> []) by discriminate. specialize (IH H0). lia.
Qed.

Lemma length_removelast_le {A} (l : list A) :
  (length (removelast l) <= length l)%nat.
Proof.
  destruct l as [|x l]; [simpl; lia|].
  pose proof (length_removelast (x :: l)). assert (x :: l <> []) by discriminate.
  specialize (H H0). lia.
Qed.

Lemma getNestedData_pops l leaf :
  snd (updateHelper.getNestedData (VArr l) leaf) = VArr (removelast l).
Proof. reflexivity. Qed.

Lemma getNestedData_path_after path leaf :
  snd (updateHelper.getNestedData path leaf) = path
  \/ exists l,
       path = VArr l
       /\ snd (updateHelper.getNestedData path leaf) = VArr (removelast l).
Proof.
  unfold updateHelper.getNestedData.
  destruct (Js.truthy path); [|left; reflexivity].
  destruct path as [| | | | |l|]; try (left; reflexivity).
  right. exists l. split; reflexivity.
Qed.

(** What [updateHelper.update] leaves of its path argument: the argument
    itself, or an array without its last element. *)
Lemma update_path_after applier source type path v :
  snd (updateHelper.update applier source type path v) = path
  \/ exists l,
       path = VArr l
       /\ snd (updateHelper.update applier source type path v)
          = VArr (removelast l).
Proof.
  unfold updateHelper.update, updateHelper.getImmutabilitySugar.
  destruct (updateHelper.getImmutabilitySugarCommand type v) as [c| |];
    try (left; reflexivity).
  pose proof (getNestedData_path_after path c) as Hp.
  destruct (updateHelper.getNestedData path c) as [r p']. simpl in Hp.
  destruct r; exact Hp.
Qed.

(** Steps that leave the record of the caller's array alone, and steps
    after which it is one of two given arrays. *)
Section PathArray.

Variables before after : value.

Lemma keeps_ret {A} (a : A) : keeps (ret a).
Proof. intros f. reflexivity. Qed.

Lemma keeps_lift {A} (o : outcome A) : keeps (lift o).
Proof. intros f. reflexivity. Qed.

Lemma keeps_gets {A} (g : frame -> A) : keeps (gets g).
Proof. intros f. reflexivity. Qed.

Lemma keeps_setLastState x : keeps (modify (setLastState x)).
Proof. intros f. reflexivity. Qed.

Lemma keeps_setNextState o : keeps (modify (setNextState o)).
Proof. intros f. reflexivity. Qed.

Lemma keeps_bind {A B} (m : M frame A) (k : A -> M frame B) :
  keeps m -> (forall a, keeps (k a)) -> keeps (bind m k).
Proof.
  intros Hm Hk f. unfold bind. specialize (Hm f).
  destruct (m f) as [[a| |] f1]; simpl in *; try assumption.
  rewrite Hk. exact Hm.
Qed.

Lemma keeps_reaches {A} (m : M frame A) : keeps m -> reaches before after m.
Proof. intros Hm f Hf. left. rewrite Hm. exact Hf. Qed.

Lemma reaches_bind {A B} (m : M frame A) (k : A -> M frame B) :
  keeps m -> (forall a, reaches before after (k a)) ->
  reaches before after (bind m k).
Proof.
  intros Hm Hk f Hf. unfold bind. specialize (Hm f).
  destruct (m f) as [[a| |] f1]; simpl in *;
    try (left; congruence).
  apply Hk. congruence.
Qed.

Lemma reaches_then_keeps {A B} (m : M frame A) (k : A -> M frame B) :
  reaches before after m -> (forall a, keeps (k a)) ->
  reaches before after (bind m k).
Proof.
  intros Hm Hk f Hf. unfold bind. specialize (Hm f Hf).
  destruct (m f) as [[a| |] f1]; simpl in *; try assumption.
  unfold among. rewrite Hk. exact Hm.
Qed.

Lemma keeps_assignNextState k x : keeps (assignNextState k x).
Proof.
  unfold assignNextState. apply keeps_bind; [apply keeps_gets|]. intros o.
  destruct (k =? "__proto__"); [apply keeps_lift | apply keeps_setNextState].
Qed.

End PathArray.

Lemma reaches_applyUpdate applier source type l0 rest v :
  reaches (VArr rest) (VArr (removelast rest))
    (applyUpdate applier source type (VArr l0) (VArr rest) v).
Proof.
  intros f Hf. unfold applyUpdate, among.
  destruct (update_path_after applier source type (VArr rest) v)
    as [H|[rest' [[= <-] H]]];
    destruct (updateHelper.update applier source type (VArr rest) v) as [r p'];
    simpl in *; subst p'; auto.
Qed.

Lemma keeps_applyUpdate_null applier source type path v :
  keeps (applyUpdate applier source type path VNull v).
Proof.
  intros f. unfold applyUpdate.
  destruct (updateHelper.update applier source type VNull v).
  destruct path; reflexivity.
Qed.

Lemma reaches_generalPath applier type l0 rest k v :
  reaches (VArr rest) (VArr (removelast rest))
    (generalPath applier type (VArr l0)
       (if (length rest =? 0)%nat then VNull else VArr rest) k v).
Proof.
  unfold generalPath.
  apply reaches_bind; [apply keeps_gets|]. intros o.
  apply reaches_bind; [apply keeps_lift|]. intros written.
  apply reaches_bind.
  { destruct written; [|apply keeps_ret].
    apply keeps_bind; [apply keeps_gets|]. intros last.
    apply keeps_bind; [apply keeps_lift|]. intros earlier.
    apply keeps_bind; [apply keeps_lift|]. intros last'.
    apply keeps_setLastState. }
  intros _.
  apply reaches_bind; [apply keeps_gets|]. intros last.
  apply reaches_bind; [apply keeps_lift|]. intros source.
  destruct (length rest =? 0)%nat.
  - apply keeps_reaches, keeps_bind;
      [apply keeps_applyUpdate_null | intros x; apply keeps_assignNextState].
  - apply reaches_then_keeps;
      [apply reaches_applyUpdate | intros x; apply keeps_assignNextState].
Qed.

(** One update with an array as path: the frame's record of the array has
    lost its first element, and its last one too if the update got as far
    as building the command tree from a non-empty remainder. *)
Lemma updateProp_pathArray applier type l v f :
  among (VArr (tl l)) (VArr (removelast (tl l)))
    (snd (updateProp applier type (VArr l) v f)).
Proof.
  unfold updateProp, bind at 1. unfold destructPath, getDestructPath. simpl.
  unfold bind at 1, lift at 1.
  destruct (Js.toPropertyKey (hd VUndef l)) as [k| |]; simpl;
    try (left; reflexivity).
  destruct (negb _ && isSet type).
  - left. unfold fastPath. rewrite keeps_assignNextState. reflexivity.
  - apply reaches_generalPath. reflexivity.
Qed.

Lemma updateSilent_pops applier args l k build :
  Js.toPropertyKey (arg 1 args) = Ret k ->
  commands.member k = Some build ->
  arg 2 args = VArr l ->
  snd (updateSilent applier args) = VArr (removelast l).
Proof.
  intros Hk Hm Hl. unfold updateSilent. rewrite Hl. simpl getPathArray.
  unfold updateHelper.update, updateHelper.getImmutabilitySugar,
    updateHelper.getImmutabilitySugarCommand.
  rewrite Hk. simpl. rewrite Hm.
  pose proof (getNestedData_pops l (build (arg 3 args))) as Hp.
  destruct (updateHelper.getNestedData (VArr l) (build (arg 3 args))) as [r p'].
  simpl in Hp. subst p'. destruct r; reflexivity.
Qed.

Lemma updateState_pathArray applier h args l :
  orderly h = true -> arg 1 args = VArr l ->
  snd (updateState applier h args) = VArr (tl l)
  \/ snd (updateState applier h args) = VArr (removelast (tl l)).
Proof.
  intros Ho Hl.
  destruct (getCachedLastState_orderly h Ho)
    as (cache & h1 & last & Hc & Hlast & _).
  destruct (updateNextState applier (arg 0 args) (arg 1 args) (arg 2 args)
              (Frame (if Js.truthy cache then cache else state h1) []
                     (arg 1 args))) as [r f] eqn:Hn.
  rewrite (updateState_run applier h args cache h1 r f Hc Hn).
  rewrite Hl, updateNextState_one in Hn by reflexivity.
  pose proof (updateProp_pathArray applier (arg 0 args) l (arg 2 args)
                (Frame (if Js.truthy cache then cache else state h1) []
                       (VArr l))) as Hp.
  rewrite Hn in Hp. unfold among in Hp. simpl in Hp.
  destruct r; exact Hp.
Qed.

Lemma update_free_pops applier this args l k build :
  isBound this = false ->
  Js.toPropertyKey (arg 1 args) = Ret k ->
  commands.member k = Some build ->
  arg 2 args = VArr l ->
  snd (update applier this args) = VArr (removelast l).
Proof.
  intros Hb Hk Hm Hl.
  pose proof (updateSilent_pops applier args l k build Hk Hm Hl) as Hp.
  destruct this as [h|]; simpl in *; [rewrite Hb|];
    destruct (updateSilent applier args); exact Hp.
Qed.

(** C10: an array passed as path is mutated in place.  Destructuring
    shifts its first element off, building the command tree pops its last
    element off.  After a pure update with one of the three operations
    the caller's array has lost its last element; after a bound update on
    an orderly host it has lost its first element, and its last one too
    when the command tree was built from the remainder.  A non-empty
    array is no longer the array that was passed. *)
Theorem array_path_is_mutated applier :
  (forall l, snd (getDestructPath (VArr l)) = VArr (tl l))
  /\ (forall l leaf,
        snd (updateHelper.getNestedData (VArr l) leaf) = VArr (removelast l))
  /\ (forall this args l k build,
        isBound this = false ->
        Js.toPropertyKey (arg 1 args) = Ret k ->
        commands.member k = Some build ->
        arg 2 args = VArr l ->
        snd (update applier this args) = VArr (removelast l)
        /\ (l <> [] -> snd (update applier this args) <> VArr l))
  /\ (forall h args l,
        isBound (Some h) = true -> orderly h = true ->
        arg 1 args = VArr l ->
        exists l',
          snd (update applier (Some h) args) = VArr l'
          /\ (l' = tl l \/ l' = removelast (tl l))
          /\ (l <> [] -> l' <> l)).
Proof.
  split; [reflexivity|]. split; [reflexivity|]. split.
  - intros this args l k build Hb Hk Hm Hl.
    pose proof (update_free_pops applier this args l k build Hb Hk Hm Hl) as Hp.
    split; [exact Hp|]. intros Hne Heq. rewrite Hp in Heq.
    injection Heq as Heq.
    pose proof (length_removelast l Hne) as Hlen. rewrite Heq in Hlen. lia.
  - intros h args l Hb Ho Hl. simpl in Hb.
    pose proof (updateState_pathArray applier h args l Ho Hl) as Hp.
    unfold update. rewrite Hb.
    destruct (updateState applier h args) as [[r h'] p']. simpl in *.
    assert (Hlt : l <> [] -> (length (tl l) < length l)%nat).
    { destruct l; [congruence | simpl; lia]. }
    pose proof (length_removelast_le (tl l)) as Hle.
    destruct Hp as [-> | ->]; eexists; (split; [reflexivity|]); split; auto;
      intros Hne Heq; specialize (Hlt Hne); rewrite Heq in *; lia.
Qed.

Lemma array_path_is_mutated_witness :
  let h := Instance true (VObj [("a", VObj [("b", VObj [("c", VNum 0)])])])
             (Some (InternalInstance None)) VUndef [] in
  let path := [VStr "a"; VStr "b"; VStr "c"] in
  (snd (update immutabilityHelper None
          [state h; VStr "set"; VArr path; VNum 1])
   = VArr (removelast path)
   /\ (path <> [] ->
       snd (update immutabilityHelper None
              [state h; VStr "set"; VArr path; VNum 1])
       <> VArr path))
  /\ exists l',
       snd (update immutabilityHelper (Some h) [VStr "set"; VArr path; VNum 1])
       = VArr l'
       /\ (l' = tl path \/ l' = removelast (tl path))
       /\ (path <> [] -> l' <> path).
Proof.
  intros h path.
  destruct (array_path_is_mutated immutabilityHelper)
    as (_ & _ & Hfree & Hbound).
  split.
  - apply (Hfree None [state h; VStr "set"; VArr path; VNum 1] path "set"
             commands.set); reflexivity.
  - apply (Hbound h [VStr "set"; VArr path; VNum 1] path); reflexivity.
Defined.

(** *** Two calls in one tick *)

(** What [getCachedLastState] leaves on an orderly host that exposes its
    queue: either the queue is null, there is no cache and [lastState] is
    the committed state, or the queue is an array, its last fragment is
    taken into the cache and [lastState] is the cache. *)
Lemma getCachedLastState_exposed h :
  orderly h = true -> exposesQueue h = true ->
  exists last,
    (getCachedLastState h
     = (Ret VUndef,
        Instance (isReactComponent h) (VObj last) (Some (InternalInstance None))
                 VUndef (setStateCalls h))
     /\ state h = VObj last
     /\ forallb notProto (Js.keys last) = true)
    \/ exists q,
         getCachedLastState h
         = (Ret (VObj last),
            Instance (isReactComponent h) (state h)
                     (Some (InternalInstance (Some q))) (VObj last)
                     (setStateCalls h)).
Proof.
  unfold orderly, exposesQueue, getCachedLastState. intros H He.
  apply andb_true_iff in H. destruct H as [H Hq].
  apply andb_true_iff in H. destruct H as [H Hc].
  apply andb_true_iff in H. destruct H as [Hobj Hst].
  destruct h as [rc st [[[q|]]|] c calls]; simpl in *; try discriminate;
    destruct st as [| | | | | |sto]; try discriminate.
  - pose proof (assignable_last q Hq) as Htop.
    destruct (Js.truthy c) eqn:Ht; simpl in Hc.
    + destruct c; try discriminate.
      destruct (Object_assign_plain [last q VUndef] props) as [t' ->].
      { simpl. rewrite Htop. reflexivity. }
      exists t'. right. eexists. reflexivity.
    + destruct (Object_assign_plain [VObj sto; last q VUndef] []) as [t' ->].
      { simpl. simpl in Hst. rewrite Hst, Htop. reflexivity. }
      exists t'. right. eexists. reflexivity.
  - exists sto. left. repeat split. exact Hst.
Qed.

(** The update of one key of a plain object by [$set]. *)
Lemma immutabilityHelper_set_key_plain k x bo :
  plainKey k = true -> Js.inherited k = false -> x <> VUndef ->
  immutabilityHelper (VObj bo) (VObj [(k, commands.set x)])
  = Ret (VObj (Js.defineProp k x bo)).
Proof.
  intros Hk Hi Hx. apply andb_true_iff in Hk. destruct Hk as [Hp Hd].
  apply negb_true_iff in Hp, Hd.
  rewrite immutabilityHelper_descend by exact Hd. simpl.
  rewrite Hi, Hp.
  destruct (Js.lookup k bo) as [c|]; simpl; [destruct c|]; destruct x;
    congruence.
Qed.

Lemma immutabilityHelper_set_key k x b v1 :
  plainKey k = true -> Js.inherited k = false -> Js.arrayIndex k = None ->
  x <> VUndef ->
  immutabilityHelper b (VObj [(k, commands.set x)]) = Ret v1 ->
  exists bo, b = VObj bo /\ v1 = VObj (Js.defineProp k x bo).
Proof.
  intros Hk Hinh Hi Hx H.
  destruct b as [| | | | |l|bo];
    try (rewrite immutabilityHelper_descend in H
           by (apply andb_true_iff in Hk; destruct Hk as [_ Hd];
               apply negb_true_iff in Hd; exact Hd);
         simpl in H; rewrite ?Hi in H; discriminate).
  rewrite immutabilityHelper_set_key_plain in H by assumption.
  injection H as <-. eauto.
Qed.

Lemma Object_assign_fragment t k x :
  notProto k = true ->
  Object_assign (VObj t) [VObj [(k, x)]] = Ret (VObj (Js.defineProp k x t)).
Proof.
  intros Hp. apply negb_true_iff in Hp.
  unfold Object_assign, copyEntry. simpl. rewrite Hp. reflexivity.
Qed.

Lemma Object_assign_state last k x :
  forallb notProto (Js.keys last) = true -> notProto k = true ->
  Object_assign (VObj []) [VObj last; VObj [(k, x)]]
  = Ret (VObj (Js.defineProp k x (fold_left defineEntry last []))).
Proof.
  intros Hl Hp. unfold Object_assign at 1. fold Object_assign. simpl.
  rewrite copy_entries by exact Hl. simpl.
  apply Object_assign_fragment. exact Hp.
Qed.

(** A bound ['set'] of the path [a.<key>]: the applier patches
    [lastState.a] under [key], and the result is the new value of [a]. *)
Lemma updateNextState_set_a (key : string) p x last pa :
  propOf p = "a" -> remainOf p = VArr [VStr key] -> notProto key = true ->
  updateNextState immutabilityHelper (VStr "set") (VStr p) x
    (Frame (VObj last) [] pa)
  = bind (lift (immutabilityHelper
                  (match Js.lookup "a" last with Some b => b | None => VUndef end)
                  (VObj [(key, commands.set x)])))
         (assignNextState "a") (Frame (VObj last) [] pa).
Proof.
  intros Hprop Hrem Hkey. rewrite updateNextState_one by reflexivity.
  rewrite updateProp_string. unfold takesGeneralPath.
  rewrite Hrem, Hprop. simpl.
  rewrite generalPath_first by reflexivity.
  unfold bind. rewrite applyUpdate_string. unfold lift.
  replace (fst (updateHelper.update immutabilityHelper
                  (match Js.lookup "a" last with Some b => b | None => VUndef end)
                  (VStr "set") (VArr [VStr key]) x))
    with (immutabilityHelper
            (match Js.lookup "a" last with Some b => b | None => VUndef end)
            (VObj [(key, commands.set x)])); [reflexivity|].
  unfold updateHelper.update, updateHelper.getImmutabilitySugar,
    updateHelper.getNestedData. simpl.
  apply negb_true_iff in Hkey. rewrite Hkey, defineProp_nil. reflexivity.
Qed.

(** One bound call [update('set', p, x)] with [p] a path [a.key], when it
    returns: [lastState.a] was a plain object, the call returns it with
    [key] set to [x] and hands the fragment with that value of [a] to
    [setState]. *)
Lemma updateState_set_a (key : string) p x h cache g last :
  propOf p = "a" -> remainOf p = VArr [VStr key] ->
  plainKey key = true -> Js.inherited key = false ->
  Js.arrayIndex key = None -> x <> VUndef ->
  getCachedLastState h = (Ret cache, g) ->
  (if Js.truthy cache then cache else state g) = VObj last ->
  forall v1 h1 p1,
    updateState immutabilityHelper h [VStr "set"; VStr p; x] = (Ret v1, h1, p1) ->
    exists bo,
      Js.lookup "a" last = Some (VObj bo)
      /\ v1 = VObj (Js.defineProp key x bo)
      /\ h1 = setState (if Js.truthy cache then with_lastState (VObj last) g
                        else with_state (VObj last) g)
                       (VObj [("a", v1)])
      /\ p1 = VStr p.
Proof.
  intros Hprop Hrem Hkey Hinh Hidx Hx Hc Hlast v1 h1 p1 Hcall.
  destruct (updateNextState immutabilityHelper (VStr "set") (VStr p) x
              (Frame (VObj last) [] (VStr p))) as [r f] eqn:Hn.
  rewrite (updateState_run immutabilityHelper h _ cache g r f Hc) in Hcall
    by (rewrite Hlast; exact Hn).
  assert (Hnp : notProto key = true).
  { apply andb_true_iff in Hkey. tauto. }
  rewrite (updateNextState_set_a key) in Hn by assumption.
  unfold bind, lift in Hn.
  destruct (immutabilityHelper _ _) as [x1| |] eqn:Hx1;
    try (injection Hn as <- <-; discriminate Hcall).
  rewrite assignNextState_run in Hn by reflexivity.
  injection Hn as <- <-. simpl in Hcall. injection Hcall as <- <- <-.
  destruct (immutabilityHelper_set_key key x _ x1 Hkey Hinh Hidx Hx Hx1)
    as (bo & Hb & ->).
  exists bo. repeat split.
  destruct (Js.lookup "a" last) as [b|]; [congruence | discriminate].
Qed.

(** The same call when [lastState.a] is a plain object: it returns. *)
Lemma updateState_set_a_returns (key : string) p x h cache g last bo :
  propOf p = "a" -> remainOf p = VArr [VStr key] ->
  plainKey key = true -> Js.inherited key = false -> x <> VUndef ->
  getCachedLastState h = (Ret cache, g) ->
  (if Js.truthy cache then cache else state g) = VObj last ->
  Js.lookup "a" last = Some (VObj bo) ->
  updateState immutabilityHelper h [VStr "set"; VStr p; x]
  = (Ret (VObj (Js.defineProp key x bo)),
     setState (if Js.truthy cache then with_lastState (VObj last) g
               else with_state (VObj last) g)
              (VObj [("a", VObj (Js.defineProp key x bo))]),
     VStr p).
Proof.
  intros Hprop Hrem Hkey Hinh Hx Hc Hlast Ha.
  assert (Hnp : notProto key = true).
  { apply andb_true_iff in Hkey. tauto. }
  rewrite (updateState_run immutabilityHelper h _ cache g (Ret tt)
             (Frame (VObj last) [("a", VObj (Js.defineProp key x bo))] (VStr p)) Hc).
  - reflexivity.
  - rewrite Hlast. unfold arg. cbn [nth].
    rewrite (updateNextState_set_a key) by assumption.
    rewrite Ha, immutabilityHelper_set_key_plain by assumption.
    unfold bind, lift. rewrite assignNextState_run by reflexivity.
    reflexivity.
Qed.

(** C2, as the specification states it, fails: the cache is built from
    the pending-state queue only (lines 94-96), and a host that does not
    expose one is read through its committed state.  Before the host
    commits, the second call then starts from the stale [a] and its new
    value of [a] has [x = 0]. *)
Lemma stale_state_without_queue :
  let h := Instance true (VObj [("a", VObj [("x", VNum 0); ("y", VNum 0)])])
             None VUndef [] in
  exists v1 h1 v2 h2,
    update immutabilityHelper (Some h) [VStr "set"; VStr "a.x"; VNum 1]
    = (Ret v1, Some h1, VStr "a.x")
    /\ state h1 = state h
    /\ update immutabilityHelper (Some h1) [VStr "set"; VStr "a.y"; VNum 2]
       = (Ret v2, Some h2, VStr "a.y")
    /\ v2 = VObj [("x", VNum 0); ("y", VNum 2)]
    /\ Js.getProp v2 "x" <> Ret (VNum 1)
    /\ setStateCalls h2 = [VObj [("a", v1)]; VObj [("a", v2)]].
Proof.
  simpl. do 4 eexists. repeat split; try reflexivity. simpl. discriminate.
Qed.

(** C2, amended: on every orderly host that exposes its pending-state
    queue, if a first bound call sets the path ['a.x'] to 1 and, before
    the host commits, a second bound call sets ['a.y'] to 2, the second
    call returns and commits a value of [a] with [x = 1] and [y = 2]: it
    starts from the cache, which holds the first call's fragment. *)
Theorem same_tick_updates_accumulate h v1 h1 p1 :
  orderly h = true -> exposesQueue h = true ->
  updateState immutabilityHelper h [VStr "set"; VStr "a.x"; VNum 1]
  = (Ret v1, h1, p1) ->
  exists v2 h2,
    updateState immutabilityHelper h1 [VStr "set"; VStr "a.y"; VNum 2]
    = (Ret v2, h2, VStr "a.y")
    /\ Js.getProp v2 "x" = Ret (VNum 1)
    /\ Js.getProp v2 "y" = Ret (VNum 2)
    /\ setStateCalls h2
       = setStateCalls h ++ [VObj [("a", v1)]; VObj [("a", v2)]].
Proof.
  intros Ho He Hcall.
  destruct (getCachedLastState_exposed h Ho He)
    as [last [(Hc & Hst & Hk) | (q & Hc)]];
    destruct (updateState_set_a "x" "a.x" (VNum 1) h _ _ last
                eq_refl eq_refl eq_refl eq_refl eq_refl ltac:(discriminate)
                Hc eq_refl v1 h1 p1 Hcall) as (bo & Ha & -> & -> & ->);
    simpl Js.truthy; cbv iota.
  - (* the queue was null: the second call builds the cache *)
    set (v1 := VObj (Js.defineProp "x" (VNum 1) bo)).
    set (last2 := Js.defineProp "a" v1 (fold_left defineEntry last [])).
    exists (VObj (Js.defineProp "y" (VNum 2) (Js.defineProp "x" (VNum 1) bo))).
    eexists. split; [|split; [|split]].
    + eapply (updateState_set_a_returns "y" "a.y" (VNum 2) _ (VObj last2) _ last2);
        try reflexivity; try discriminate.
      * unfold getCachedLastState. simpl.
        rewrite Object_assign_state by (assumption || reflexivity).
        reflexivity.
      * unfold last2. apply lookup_defineProp_same.
    + simpl. rewrite lookup_defineProp_other by discriminate.
      rewrite lookup_defineProp_same. reflexivity.
    + simpl. rewrite lookup_defineProp_same. reflexivity.
    + simpl. rewrite <- app_assoc. reflexivity.
  - (* the queue was an array: the second call refreshes the cache *)
    set (v1 := VObj (Js.defineProp "x" (VNum 1) bo)).
    set (last2 := Js.defineProp "a" v1 last).
    exists (VObj (Js.defineProp "y" (VNum 2) (Js.defineProp "x" (VNum 1) bo))).
    eexists. split; [|split; [|split]].
    + eapply (updateState_set_a_returns "y" "a.y" (VNum 2) _ (VObj last2) _ last2);
        try reflexivity; try discriminate.
      * unfold getCachedLastState. simpl. rewrite last_last.
        rewrite Object_assign_fragment by reflexivity. reflexivity.
      * unfold last2. apply lookup_defineProp_same.
    + simpl. rewrite lookup_defineProp_other by discriminate.
      rewrite lookup_defineProp_same. reflexivity.
    + simpl. rewrite lookup_defineProp_same. reflexivity.
    + simpl. rewrite <- app_assoc. reflexivity.
Qed.

Lemma same_tick_updates_accumulate_witness :
  let h := Instance true (VObj [("a", VObj [("x", VNum 0); ("y", VNum 0)])])
             (Some (InternalInstance None)) VUndef [] in
  let v1 := VObj [("x", VNum 1); ("y", VNum 0)] in
  let h1 := Instance true (state h)
              (Some (InternalInstance (Some [VObj [("a", v1)]]))) VUndef
              [VObj [("a", v1)]] in
  exists v2 h2,
    updateState immutabilityHelper h1 [VStr "set"; VStr "a.y"; VNum 2]
    = (Ret v2, h2, VStr "a.y")
    /\ Js.getProp v2 "x" = Ret (VNum 1)
    /\ Js.getProp v2 "y" = Ret (VNum 2)
    /\ setStateCalls h2
       = setStateCalls h ++ [VObj [("a", v1)]; VObj [("a", v2)]].
Proof.
  intros h v1 h1.
  apply (same_tick_updates_accumulate h v1 h1 (VStr "a.x")); reflexivity.
Defined.

(** * Further properties of the code *)

(** ** Pure updates through a path *)




(** Reading back the property an assignment wrote. *)
Lemma getProp_setProp_same source k x source' :
  Js.setProp source k x = Ret source' -> Js.getProp source' k = Ret x.
Proof.
  destruct source as [| | | | |l|o]; simpl; try discriminate.
  - destruct (Js.arrayIndex k) as [i|] eqn:Hi; [|discriminate].
    destruct (N.to_nat i <? length l)%nat eqn:Hlt.
    + intros [= <-]. simpl. rewrite Hi. apply Nat.ltb_lt in Hlt.
      rewrite nth_replaceNth_same by exact Hlt. reflexivity.
    + destruct (N.to_nat i =? length l)%nat eqn:Heq; [|discriminate].
      intros [= <-]. simpl. rewrite Hi. apply Nat.eqb_eq in Heq.
      rewrite Heq, nth_middle. reflexivity.
  - destruct (k =? "__proto__"); [discriminate|].
    intros [= <-]. simpl. rewrite lookup_defineProp_same. reflexivity.
Qed.










(** *** Writing again where something was written *)


Lemma replaceProp_twice k x1 x2 o :
  Js.replaceProp k x2 (Js.replaceProp k x1 o) = Js.replaceProp k x2 o.
Proof.
  induction o as [|[k' v'] o IH]; simpl; [reflexivity|].
  destruct (k =? k') eqn:E; simpl.
  - rewrite String.eqb_refl. reflexivity.
  - rewrite E, IH. reflexivity.
Qed.


Lemma replaceNth_twice i x1 x2 (l : list value) :
  Js.replaceNth i x2 (Js.replaceNth i x1 l) = Js.replaceNth i x2 l.
Proof.
  revert i. induction l as [|x l IH]; intros [|i]; simpl; try reflexivity.
  rewrite IH. reflexivity.
Qed.

Lemma length_replaceNth i x (l : list value) :
  length (Js.replaceNth i x l) = length l.
Proof.
  revert i. induction l as [|y l IH]; intros [|i]; simpl; try reflexivity.
  rewrite IH. reflexivity.
Qed.

Lemma getProp_defined_array l k c :
  Js.getProp (VArr l) k = Ret c -> c <> VUndef ->
  exists i, Js.arrayIndex k = Some i /\ (N.to_nat i < length l)%nat
            /\ c = nth (N.to_nat i) l VUndef.
Proof.
  simpl. destruct (Js.arrayIndex k) as [i|]; [|discriminate].
  intros [= <-] Hc. exists i. repeat split.
  destruct (Nat.lt_ge_cases (N.to_nat i) (length l)) as [|Hge]; [assumption|].
  rewrite nth_overflow in Hc by exact Hge. congruence.
Qed.

Lemma getProp_defined_object o k c :
  Js.getProp (VObj o) k = Ret c -> c <> VUndef -> Js.lookup k o = Some c.
Proof.
  simpl. destruct (Js.lookup k o) as [x|].
  - intros [= ->] _. reflexivity.
  - destruct (Js.inherited k); [discriminate|]. intros [= <-] Hc. congruence.
Qed.


Lemma setProp_twice source k c x1 x2 s1 :
  Js.getProp source k = Ret c -> c <> VUndef ->
  Js.setProp source k x1 = Ret s1 ->
  Js.setProp s1 k x2 = Js.setProp source k x2.
Proof.
  intros Hget Hc Hset.
  destruct source as [| | | | |l|o]; try discriminate.
  - destruct (getProp_defined_array l k c Hget Hc) as (i & Hi & Hlt & _).
    simpl in Hset. rewrite Hi in Hset.
    apply Nat.ltb_lt in Hlt as Hb. rewrite Hb in Hset. injection Hset as <-.
    simpl. rewrite Hi, length_replaceNth, Hb, replaceNth_twice. reflexivity.
  - pose proof (getProp_defined_object o k c Hget Hc) as Hl.
    simpl in Hset. destruct (k =? "__proto__") eqn:Hp; [discriminate|].
    injection Hset as <-. simpl. rewrite Hp.
    unfold Js.defineProp at 1. rewrite lookup_defineProp_same.
    unfold Js.defineProp. rewrite Hl, replaceProp_twice. reflexivity.
Qed.


Lemma replaceAt_twice keys : forall source cur x1 x2 s1,
  valueAt source keys = Ret cur -> cur <> VUndef ->
  replaceAt source keys x1 = Ret s1 ->
  replaceAt s1 keys x2 = replaceAt source keys x2.
Proof.
  induction keys as [|k keys IH]; intros source cur x1 x2 s1 Hat Hcur Hrep.
  - reflexivity.
  - simpl in Hat, Hrep. destruct (Js.getProp source k) as [c| |] eqn:Hget;
      try discriminate.
    simpl in Hat, Hrep.
    destruct (replaceAt c keys x1) as [n1| |] eqn:Hn1; try discriminate.
    simpl in Hrep.
    pose proof (valueAt_defined keys c cur Hat Hcur) as Hc.
    simpl. rewrite Hget, (getProp_setProp_same source k n1 s1 Hrep). simpl.
    rewrite (IH c cur x1 x2 n1 Hat Hcur Hn1).
    destruct (replaceAt c keys x2) as [n2| |]; simpl; try reflexivity.
    apply (setProp_twice source k c n1 n2 s1 Hget Hc Hrep).
Qed.

(** X4: of two pure ['set'] calls through the same path, the second on the
    result of the first, only the later value is left: the result is that
    of the later call alone. *)
Theorem set_last_wins source keys cur v1 v2 :
  forallb plainKey keys = true ->
  valueAt source keys = Ret cur -> cur <> VUndef -> v1 <> VUndef ->
  exists s1 s2,
    fst (updateSilent immutabilityHelper [source; VStr "set"; pathOf keys; v1])
    = Ret s1
    /\ fst (updateSilent immutabilityHelper [s1; VStr "set"; pathOf keys; v2])
       = Ret s2
    /\ fst (updateSilent immutabilityHelper [source; VStr "set"; pathOf keys; v2])
       = Ret s2.
Proof.
  intros Hk Hat Hcur Hv1.
  destruct (updateSilent_at "set" commands.set source keys v1 cur v1
              eq_refl Hk Hat Hcur eq_refl) as (s1 & H1 & Hr1 & Ha1).
  destruct (updateSilent_at "set" commands.set s1 keys v2 v1 v2
              eq_refl Hk Ha1 Hv1 eq_refl) as (s2 & H2 & Hr2 & _).
  destruct (updateSilent_at "set" commands.set source keys v2 cur v2
              eq_refl Hk Hat Hcur eq_refl) as (s2' & H2' & Hr2' & _).
  exists s1, s2. repeat split; try assumption.
  rewrite H2'. rewrite <- Hr2', <- Hr2. symmetry.
  apply (replaceAt_twice keys source cur v1 v2 s1 Hat Hcur Hr1).
Qed.

Lemma set_last_wins_witness :
  exists s1 s2,
    fst (updateSilent immutabilityHelper
           [VObj [("a", VArr [VNum 1; VNum 2])]; VStr "set"; pathOf ["a"; "1"];
            VStr "x"]) = Ret s1
    /\ fst (updateSilent immutabilityHelper
              [s1; VStr "set"; pathOf ["a"; "1"]; VStr "y"]) = Ret s2
    /\ fst (updateSilent immutabilityHelper
              [VObj [("a", VArr [VNum 1; VNum 2])]; VStr "set"; pathOf ["a"; "1"];
               VStr "y"]) = Ret s2.
Proof.
  apply (set_last_wins (VObj [("a", VArr [VNum 1; VNum 2])]) ["a"; "1"]
           (VNum 2) (VStr "x") (VStr "y"));
    [reflexivity | reflexivity | discriminate | discriminate].
Defined.






(** ** The command tree *)

(** X7: for an operation of [commands] and a path of one or more keys,
    [getImmutabilitySugar] builds the operation's command nested under
    the keys, outermost first, and leaves the path without its last
    key. *)
Theorem sugar_nests_command (type : string) build keys v :
  commands.member type = Some build ->
  keys <> [] -> forallb notProto keys = true ->
  updateHelper.getImmutabilitySugar (VStr type) (VArr (map VStr keys)) v
  = (Ret (nest keys (build v)), VArr (map VStr (removelast keys))).
Proof.
  intros Hm Hne Hk.
  unfold updateHelper.getImmutabilitySugar,
    updateHelper.getImmutabilitySugarCommand.
  simpl Js.toPropertyKey. simpl obind. rewrite Hm.
  apply getNestedData_keys; assumption.
Qed.

Lemma sugar_nests_command_witness :
  updateHelper.getImmutabilitySugar (VStr "push")
    (VArr (map VStr ["a"; "b"; "c"])) (VNum 1)
  = (Ret (VObj [("a", VObj [("b", VObj [("c", VObj [("$push", VArr [VNum 1])])])])]),
     VArr (map VStr ["a"; "b"])).
Proof.
  apply (sugar_nests_command "push" commands.push ["a"; "b"; "c"] (VNum 1));
    [reflexivity | discriminate | reflexivity].
Defined.

(** ** Bound calls *)

(** X8: whatever the applier, the host and the arguments, a bound call
    that returns has handed exactly one fragment to [setState], and its
    value is the fragment's only value if the fragment has exactly one
    property, the fragment itself if not; a call that does not return
    has handed nothing to [setState]. *)
Theorem bound_call_commits_once applier h args :
  let '(r, h', _) := updateState applier h args in
  match r with
  | Ret v =>
      exists frag,
        setStateCalls h' = setStateCalls h ++ [VObj frag]
        /\ ((exists k, frag = [(k, v)])
            \/ (v = VObj frag /\ length frag <> 1%nat))
  | _ => setStateCalls h' = setStateCalls h
  end.
Proof.
  pose proof (getCachedLastState_calls h) as Hcalls.
  destruct (getCachedLastState h) as [[cache| |] h1] eqn:Hc; simpl in Hcalls.
  - destruct (updateNextState applier (arg 0 args) (arg 1 args) (arg 2 args)
                (Frame (if Js.truthy cache then cache else state h1) []
                       (arg 1 args))) as [r f] eqn:Hn.
    rewrite (updateState_run applier h args cache h1 r f Hc Hn).
    destruct r as [[]| |]; cbv zeta; cbv iota;
      try (rewrite setStateCalls_written; exact Hcalls).
    assert (Hlog : setStateCalls
                     (setState (if Js.truthy cache
                                then with_lastState (lastState f) h1
                                else with_state (lastState f) h1)
                               (VObj (nextState f)))
                   = setStateCalls h ++ [VObj (nextState f)]).
    { simpl. rewrite setStateCalls_written, Hcalls. reflexivity. }
    destruct (nextState f) as [|[k x] [|kx frag]] eqn:Hnext.
    + simpl. exists []. split; [exact Hlog|]. right. split; [reflexivity|].
      simpl. discriminate.
    + simpl. rewrite String.eqb_refl. exists [(k, x)]. split; [exact Hlog|].
      left. exists k. reflexivity.
    + simpl. exists ((k, x) :: kx :: frag). split; [exact Hlog|].
      right. split; [reflexivity|]. simpl. discriminate.
  - unfold updateState. rewrite Hc. exact Hcalls.
  - unfold updateState. rewrite Hc. exact Hcalls.
Qed.

(** One bound call with a string path, whatever its outcome. *)
Lemma updateState_string applier type p v h cache h1 last :
  getCachedLastState h = (Ret cache, h1) ->
  (if Js.truthy cache then cache else state h1) = VObj last ->
  Js.inherited (propOf p) = false ->
  updateState applier h [type; VStr p; v]
  = let h2 := if Js.truthy cache then with_lastState (VObj last) h1
              else with_state (VObj last) h1 in
    match computed applier type p v
            (match Js.lookup (propOf p) last with
             | Some b => b
             | None => VUndef
             end) with
    | Ret x => (Ret x, setState h2 (VObj [(propOf p, x)]), VStr p)
    | Throws e => (Throws e, h2, VStr p)
    | Outside => (Outside, h2, VStr p)
    end.
Proof.
  intros Hc Hlast Hi.
  pose proof (updateProp_fresh applier type p v last [] (VStr p) Hi) as Hu.
  simpl Js.lookup in Hu. cbv iota in Hu.
  destruct (computed applier type p v _) as [x| |] eqn:Hx.
  - rewrite (updateState_run applier h _ cache h1 (Ret tt)
               (Frame (VObj last) [(propOf p, x)] (VStr p)) Hc).
    + simpl. rewrite String.eqb_refl. reflexivity.
    + rewrite Hlast. unfold arg. cbn [nth].
      rewrite updateNextState_one by reflexivity.
      rewrite Hu, defineProp_nil. reflexivity.
  - rewrite (updateState_run applier h _ cache h1 (Throws e)
               (Frame (VObj last) [] (VStr p)) Hc); [reflexivity|].
    rewrite Hlast. unfold arg. cbn [nth].
    rewrite updateNextState_one by reflexivity. exact Hu.
  - rewrite (updateState_run applier h _ cache h1 Outside
               (Frame (VObj last) [] (VStr p)) Hc); [reflexivity|].
    rewrite Hlast. unfold arg. cbn [nth].
    rewrite updateNextState_one by reflexivity. exact Hu.
Qed.

Lemma getCachedLastState_idle h :
  idle h = true -> getCachedLastState h = (Ret VUndef, with_lastState VUndef h).
Proof.
  unfold idle, getCachedLastState.
  destruct h as [rc st [[[q|]]|] c calls]; simpl; try discriminate; reflexivity.
Qed.

Lemma updateSilent_remain applier base type p v :
  fst (updateSilent applier [base; type; remainOf p; v])
  = fst (updateHelper.update applier base type (remainOf p) v).
Proof.
  unfold updateSilent, arg. cbn [nth].
  assert (Hp : getPathArray (remainOf p) = remainOf p).
  { unfold remainOf. destruct (length _ =? 0)%nat; reflexivity. }
  rewrite Hp.
  destruct (updateHelper.update applier base type (remainOf p) v). reflexivity.
Qed.

(** X9: a bound call without a path (the argument is missing, [null], a
    boolean or a number) throws a [TypeError] on an orderly host: nothing
    is handed to [setState] and the committed state is as before.  In a
    pure call such a path is no error of its own.  When it is missing,
    [null], [false] or 0, the pure ['set'] returns the value: the path
    addresses the whole source.  When it is [true] or an integer other
    than 0 of magnitude below 2^53, it is read as one key: the call is
    the applier's on the operation's command under that key. *)
Theorem bound_call_without_path applier :
  (forall h args,
      orderly h = true -> noPath (arg 1 args) = true ->
      exists h',
        updateState applier h args = (Throws TypeError, h', arg 1 args)
        /\ setStateCalls h' = setStateCalls h
        /\ state h' = state h)
  /\ (forall source path v,
        noPath path = true -> Js.truthy path = false ->
        updateSilent immutabilityHelper [source; VStr "set"; path; v]
        = (Ret v, path))
  /\ (forall source (type : string) build path k v,
        noPath path = true -> Js.truthy path = true ->
        commands.member type = Some build ->
        Js.toPropertyKey path = Ret k -> notProto k = true ->
        updateSilent applier [source; VStr type; path; v]
        = (applier source (VObj [(k, build v)]), path)).
Proof.
  split; [|split].
  - intros h args Ho Hp.
    destruct (getCachedLastState_orderly h Ho)
      as (cache & h1 & last & Hc & Hlast & _ & Hst & Hcalls).
    eexists.
    rewrite (updateState_run applier h args cache h1 (Throws TypeError)
               (Frame (if Js.truthy cache then cache else state h1) []
                      (arg 1 args)) Hc).
    + cbv zeta. cbv iota. split; [reflexivity|].
      rewrite setStateCalls_written, state_written by reflexivity. tauto.
    + rewrite updateNextState_one by (destruct (arg 1 args); auto; discriminate).
      destruct (arg 1 args); try discriminate; reflexivity.
  - intros source path v Hp Ht.
    unfold updateSilent, arg. cbn [nth].
    assert (Hg : getPathArray path = path) by (destruct path; auto; discriminate).
    rewrite Hg. unfold updateHelper.update, updateHelper.getImmutabilitySugar.
    change (updateHelper.getImmutabilitySugarCommand (VStr "set") v)
      with (Ret (A := value) (commands.set v)).
    cbv iota. rewrite getNestedData_absent by exact Ht. simpl.
    destruct path; try discriminate; reflexivity.
  - intros source type build path k v Hp Ht Hm Hk Hnp.
    apply negb_true_iff in Hnp.
    unfold updateSilent, arg. cbn [nth].
    assert (Hg : getPathArray path = path) by (destruct path; auto; discriminate).
    rewrite Hg. unfold updateHelper.update, updateHelper.getImmutabilitySugar,
      updateHelper.getImmutabilitySugarCommand.
    simpl Js.toPropertyKey. simpl obind. rewrite Hm.
    unfold updateHelper.getNestedData. rewrite Ht.
    destruct path; try discriminate Hp; rewrite Hk; simpl;
      rewrite Hnp, defineProp_nil; reflexivity.
Qed.

Lemma bound_call_without_path_witness :
  (exists h',
     updateState immutabilityHelper
       (Instance true (VObj [("a", VNum 0)]) None VUndef []) [VStr "set"]
     = (Throws TypeError, h', VUndef)
     /\ setStateCalls h' = []
     /\ state h' = VObj [("a", VNum 0)])
  /\ updateSilent immutabilityHelper
       [VObj [("a", VNum 0)]; VStr "set"; VNull; VNum 1]
     = (Ret (VNum 1), VNull)
  /\ updateSilent immutabilityHelper
       [VArr [VNum 7; VNum 8]; VStr "set"; VNum 1; VNum 9]
     = (Ret (VArr [VNum 7; VNum 9]), VNum 1).
Proof.
  split; [|split].
  - apply (proj1 (bound_call_without_path immutabilityHelper)
             (Instance true (VObj [("a", VNum 0)]) None VUndef [])
             [VStr "set"]); reflexivity.
  - apply (proj1 (proj2 (bound_call_without_path immutabilityHelper))
             (VObj [("a", VNum 0)]) VNull (VNum 1)); reflexivity.
  - apply (proj2 (proj2 (bound_call_without_path immutabilityHelper))
             (VArr [VNum 7; VNum 8]) "set" commands.set (VNum 1) "1" (VNum 9));
      reflexivity.
Defined.

(** X10: on an orderly host the bound ['set'] of a path that is one key
    returns the value and hands [setState] the fragment with the value
    under that key, whatever the applier; the committed state is as
    before. *)
Theorem bound_set_top_level applier h k v :
  orderly h = true -> isKey k = true -> Js.inherited k = false ->
  exists h',
    updateState applier h [VStr "set"; VStr k; v] = (Ret v, h', VStr k)
    /\ setStateCalls h' = setStateCalls h ++ [VObj [(k, v)]]
    /\ state h' = state h.
Proof.
  intros Ho Hk Hi.
  destruct (getCachedLastState_orderly h Ho)
    as (cache & h1 & last & Hc & Hlast & _ & Hst & Hcalls).
  assert (Hprop : propOf k = k).
  { unfold propOf. rewrite (pathKeys_single k Hk). reflexivity. }
  assert (Hfast : takesGeneralPath (VStr "set") k = false).
  { unfold takesGeneralPath, remainOf. rewrite (pathKeys_single k Hk).
    reflexivity. }
  rewrite <- Hprop in Hi.
  rewrite (updateState_string applier (VStr "set") k v h cache h1 last Hc Hlast Hi).
  unfold computed. rewrite Hfast, Hprop. cbv zeta. cbv iota.
  eexists. split; [reflexivity|]. simpl.
  rewrite setStateCalls_written, state_written by exact Hlast.
  rewrite Hcalls, Hst. split; reflexivity.
Qed.

Lemma bound_set_top_level_witness :
  exists h',
    updateState immutabilityHelper
      (Instance true (VObj [("name", VStr "a"); ("n", VNum 0)])
                (Some (InternalInstance None)) VUndef [])
      [VStr "set"; VStr "name"; VStr "b"]
    = (Ret (VStr "b"), h', VStr "name")
    /\ setStateCalls h' = [] ++ [VObj [("name", VStr "b")]]
    /\ state h' = VObj [("name", VStr "a"); ("n", VNum 0)].
Proof.
  apply (bound_set_top_level immutabilityHelper
           (Instance true (VObj [("name", VStr "a"); ("n", VNum 0)])
                     (Some (InternalInstance None)) VUndef [])
           "name" (VStr "b")); reflexivity.
Defined.

(** X11: a string path without any key (the empty string, or delimiters
    only) names the property ["undefined"]: on an orderly host the bound
    ['set'] of such a path returns the value and hands [setState] the
    fragment with the value under ["undefined"]. *)
Theorem bound_set_keyless_path applier h p v :
  orderly h = true -> pathKeys p = [] ->
  exists h',
    updateState applier h [VStr "set"; VStr p; v] = (Ret v, h', VStr p)
    /\ setStateCalls h' = setStateCalls h ++ [VObj [("undefined", v)]].
Proof.
  intros Ho Hp.
  destruct (getCachedLastState_orderly h Ho)
    as (cache & h1 & last & Hc & Hlast & _ & Hst & Hcalls).
  assert (Hprop : propOf p = "undefined").
  { unfold propOf. rewrite Hp. reflexivity. }
  assert (Hfast : takesGeneralPath (VStr "set") p = false).
  { unfold takesGeneralPath, remainOf. rewrite Hp. reflexivity. }
  rewrite (updateState_string applier (VStr "set") p v h cache h1 last Hc Hlast)
    by (rewrite Hprop; reflexivity).
  unfold computed. rewrite Hfast, Hprop. cbv zeta. cbv iota.
  eexists. split; [reflexivity|]. simpl.
  rewrite setStateCalls_written, Hcalls. reflexivity.
Qed.

Lemma bound_set_keyless_path_witness :
  exists h',
    updateState immutabilityHelper
      (Instance true (VObj [("a", VNum 0)]) None VUndef [])
      [VStr "set"; VStr "."; VNum 1]
    = (Ret (VNum 1), h', VStr ".")
    /\ setStateCalls h' = [] ++ [VObj [("undefined", VNum 1)]].
Proof.
  apply (bound_set_keyless_path immutabilityHelper
           (Instance true (VObj [("a", VNum 0)]) None VUndef [])
           "." (VNum 1)); reflexivity.
Defined.

(** X12: on a host without pending-state queue whose state is a plain
    object, a bound update of a string path that takes the general path
    is the pure update of the property's committed value through the
    rest of the path: the same outcome, and when it returns, the
    fragment handed to [setState] holds the result under the property.
    The committed state is as before, and a cache left from earlier
    calls is not read: it is deleted. *)
Theorem bound_update_is_pure_on_property applier type p v h base :
  idle h = true -> isPlainObject (state h) = true ->
  Js.inherited (propOf p) = false ->
  takesGeneralPath type p = true ->
  Js.getProp (state h) (propOf p) = Ret base ->
  exists h',
    updateState applier h [type; VStr p; v]
    = (fst (updateSilent applier [base; type; remainOf p; v]), h', VStr p)
    /\ state h' = state h
    /\ __lastState h' = VUndef
    /\ setStateCalls h'
       = setStateCalls h
         ++ match fst (updateSilent applier [base; type; remainOf p; v]) with
            | Ret x => [VObj [(propOf p, x)]]
            | _ => []
            end.
Proof.
  intros Hidle Hplain Hi Hgen Hbase.
  destruct (state h) as [| | | | | |st] eqn:Hst; try discriminate Hplain.
  assert (Hb : base = match Js.lookup (propOf p) st with
                      | Some b => b
                      | None => VUndef
                      end).
  { simpl in Hbase. rewrite Hi in Hbase.
    destruct (Js.lookup (propOf p) st); congruence. }
  rewrite (updateState_string applier type p v h VUndef
             (with_lastState VUndef h) st
             (getCachedLastState_idle h Hidle) Hst Hi).
  rewrite updateSilent_remain. unfold computed. rewrite Hgen, <- Hb.
  simpl Js.truthy. cbv zeta. cbv iota.
  destruct (fst (updateHelper.update applier base type (remainOf p) v));
    eexists; (split; [reflexivity|]); simpl; rewrite ?app_nil_r; auto.
Qed.

Lemma bound_update_is_pure_on_property_witness :
  exists h',
    updateState immutabilityHelper
      (Instance true (VObj [("todos", VObj [("list", VArr [VNum 1])])])
                None (VObj [("todos", VObj [("list", VArr [])])]) [])
      [VStr "push"; VStr "todos.list"; VNum 2]
    = (fst (updateSilent immutabilityHelper
              [VObj [("list", VArr [VNum 1])]; VStr "push";
               remainOf "todos.list"; VNum 2]), h', VStr "todos.list")
    /\ state h' = VObj [("todos", VObj [("list", VArr [VNum 1])])]
    /\ __lastState h' = VUndef
    /\ setStateCalls h'
       = [] ++ match fst (updateSilent immutabilityHelper
                            [VObj [("list", VArr [VNum 1])]; VStr "push";
                             remainOf "todos.list"; VNum 2]) with
               | Ret x => [VObj [(propOf "todos.list", x)]]
               | _ => []
               end.
Proof.
  apply (bound_update_is_pure_on_property immutabilityHelper (VStr "push")
           "todos.list" (VNum 2)
           (Instance true (VObj [("todos", VObj [("list", VArr [VNum 1])])])
                     None (VObj [("todos", VObj [("list", VArr [])])]) [])
           (VObj [("list", VArr [VNum 1])])); reflexivity.
Defined.

(** ** Calls before the host commits *)

(** X13: on an orderly host that exposes its pending-state queue, after a
    bound call with a string path has returned, a second bound call
    before the host commits, with a string path of the same property
    that takes the general path, is the pure update of the first call's
    result through the rest of its path: the same outcome, and when it
    returns, its fragment holds the result under the property. *)
Theorem same_tick_same_property applier t1 p1 v1 t2 p2 v2 h x1 h1 pa :
  orderly h = true -> exposesQueue h = true ->
  Js.inherited (propOf p1) = false -> propOf p2 = propOf p1 ->
  takesGeneralPath t2 p2 = true ->
  updateState applier h [t1; VStr p1; v1] = (Ret x1, h1, pa) ->
  exists h2,
    updateState applier h1 [t2; VStr p2; v2]
    = (fst (updateSilent applier [x1; t2; remainOf p2; v2]), h2, VStr p2)
    /\ setStateCalls h2
       = setStateCalls h
         ++ VObj [(propOf p1, x1)]
            :: match fst (updateSilent applier [x1; t2; remainOf p2; v2]) with
               | Ret x2 => [VObj [(propOf p1, x2)]]
               | _ => []
               end.
Proof.
  intros Ho He Hi Hprop Hgen Hcall.
  pose proof (inherited_notProto _ Hi) as Hnp.
  assert (Hnp' : notProto (propOf p1) = true)
    by (unfold notProto; rewrite Hnp; reflexivity).
  assert (Hsecond : forall g last2,
             getCachedLastState h1 = (Ret (VObj last2), g) ->
             Js.lookup (propOf p1) last2 = Some x1 ->
             setStateCalls g = setStateCalls h ++ [VObj [(propOf p1, x1)]] ->
             exists h2,
               updateState applier h1 [t2; VStr p2; v2]
               = (fst (updateSilent applier [x1; t2; remainOf p2; v2]), h2,
                  VStr p2)
               /\ setStateCalls h2
                  = setStateCalls h
                    ++ VObj [(propOf p1, x1)]
                       :: match fst (updateSilent applier
                                       [x1; t2; remainOf p2; v2]) with
                          | Ret x2 => [VObj [(propOf p1, x2)]]
                          | _ => []
                          end).
  { intros g last2 Hc2 Hl2 Hcalls2.
    rewrite (updateState_string applier t2 p2 v2 h1 (VObj last2) g last2
               Hc2 eq_refl) by (rewrite Hprop; exact Hi).
    rewrite updateSilent_remain. unfold computed.
    rewrite Hgen, Hprop, Hl2. simpl Js.truthy. cbv zeta. cbv iota.
    destruct (fst (updateHelper.update applier x1 t2 (remainOf p2) v2));
      eexists; (split; [reflexivity|]); simpl; rewrite Hcalls2;
      rewrite <- ?app_assoc; reflexivity. }
  destruct (getCachedLastState_exposed h Ho He)
    as [last [(Hc & Hst & Hk) | (q & Hc)]].
  - rewrite (updateState_string applier t1 p1 v1 h _ _ last Hc eq_refl Hi)
      in Hcall.
    simpl Js.truthy in Hcall. cbv zeta in Hcall. cbv iota in Hcall.
    destruct (computed applier t1 p1 v1 _) as [x| |]; try discriminate Hcall.
    injection Hcall as -> <- <-.
    eapply (Hsecond _ (Js.defineProp (propOf p1) x1
                         (fold_left defineEntry last []))).
    + unfold getCachedLastState. simpl.
      rewrite Object_assign_state by assumption. reflexivity.
    + apply lookup_defineProp_same.
    + reflexivity.
  - rewrite (updateState_string applier t1 p1 v1 h _ _ last Hc eq_refl Hi)
      in Hcall.
    simpl Js.truthy in Hcall. cbv zeta in Hcall. cbv iota in Hcall.
    destruct (computed applier t1 p1 v1 _) as [x| |]; try discriminate Hcall.
    injection Hcall as -> <- <-.
    eapply (Hsecond _ (Js.defineProp (propOf p1) x1 last)).
    + unfold getCachedLastState. simpl. rewrite last_last.
      rewrite Object_assign_fragment by assumption. reflexivity.
    + apply lookup_defineProp_same.
    + reflexivity.
Qed.

Lemma same_tick_same_property_witness :
  let h := Instance true (VObj [("list", VArr [VNum 1])])
             (Some (InternalInstance None)) VUndef [] in
  let x1 := VArr [VNum 1; VNum 2] in
  let h1 := Instance true (state h)
              (Some (InternalInstance (Some [VObj [("list", x1)]]))) VUndef
              [VObj [("list", x1)]] in
  exists h2,
    updateState immutabilityHelper h1 [VStr "splice"; VStr "list"; VNum 0]
    = (fst (updateSilent immutabilityHelper
              [x1; VStr "splice"; remainOf "list"; VNum 0]), h2, VStr "list")
    /\ setStateCalls h2
       = setStateCalls h
         ++ VObj [(propOf "list", x1)]
            :: match fst (updateSilent immutabilityHelper
                            [x1; VStr "splice"; remainOf "list"; VNum 0]) with
               | Ret x2 => [VObj [(propOf "list", x2)]]
               | _ => []
               end.
Proof.
  intros h x1 h1.
  apply (same_tick_same_property immutabilityHelper
           (VStr "push") "list" (VNum 2) (VStr "splice") "list" (VNum 0)
           h x1 h1 (VStr "list")); reflexivity.
Defined.

Lemma getCachedLastState_pending h :
  pending (snd (getCachedLastState h))
  = option_map (@removelast value) (pending h).
Proof.
  unfold getCachedLastState, pending.
  destruct h as [rc st [[[q|]]|] c calls]; simpl; try reflexivity.
  destruct (if Js.truthy c then _ else _); reflexivity.
Qed.

Lemma pending_written cache last h1 :
  pending (if Js.truthy cache : bool then with_lastState last h1
           else with_state last h1)
  = pending h1.
Proof. destruct (Js.truthy cache); reflexivity. Qed.

Lemma pending_setState h q frag :
  pending h = Some q -> pending (setState h frag) = Some (q ++ [frag]).
Proof.
  unfold pending, setState.
  destruct h as [rc st [[[q'|]]|] c calls]; simpl; try discriminate.
  intros [= ->]. reflexivity.
Qed.

(** X14: whatever the applier and the arguments, a bound call on a host
    with a pending-state queue takes the newest pending fragment out of
    the queue: after a call that returns, the queue is the earlier one
    without its last fragment, followed by the fragment of the call;
    after a call that does not return, it is the earlier one without its
    last fragment. *)
Theorem bound_call_pops_pending applier h args q :
  pending h = Some q ->
  let '(r, h', _) := updateState applier h args in
  match r with
  | Ret _ =>
      exists frag,
        pending h' = Some (removelast q ++ [VObj frag])
        /\ setStateCalls h' = setStateCalls h ++ [VObj frag]
  | _ => pending h' = Some (removelast q)
  end.
Proof.
  intros Hq.
  pose proof (getCachedLastState_pending h) as Hp.
  pose proof (getCachedLastState_calls h) as Hcalls.
  rewrite Hq in Hp. simpl in Hp.
  destruct (getCachedLastState h) as [[cache| |] h1] eqn:Hc;
    simpl in Hp, Hcalls.
  - destruct (updateNextState applier (arg 0 args) (arg 1 args) (arg 2 args)
                (Frame (if Js.truthy cache then cache else state h1) []
                       (arg 1 args))) as [r f] eqn:Hn.
    rewrite (updateState_run applier h args cache h1 r f Hc Hn).
    destruct r as [[]| |]; cbv zeta; cbv iota;
      try (rewrite pending_written; exact Hp).
    assert (Hlog : pending
                     (setState (if Js.truthy cache
                                then with_lastState (lastState f) h1
                                else with_state (lastState f) h1)
                               (VObj (nextState f)))
                   = Some (removelast q ++ [VObj (nextState f)])
                   /\ setStateCalls
                        (setState (if Js.truthy cache
                                   then with_lastState (lastState f) h1
                                   else with_state (lastState f) h1)
                                  (VObj (nextState f)))
                      = setStateCalls h ++ [VObj (nextState f)]).
    { split.
      - apply pending_setState. rewrite pending_written. exact Hp.
      - simpl. rewrite setStateCalls_written, Hcalls. reflexivity. }
    destruct (nextState f) as [|[k x] [|kx frag]]; simpl;
      rewrite ?String.eqb_refl; eexists; exact Hlog.
  - unfold updateState. rewrite Hc. exact Hp.
  - unfold updateState. rewrite Hc. exact Hp.
Qed.

Lemma bound_call_pops_pending_witness :
  let h := Instance true (VObj [("a", VNum 0); ("b", VNum 0)])
             (Some (InternalInstance (Some [VObj [("a", VNum 1)]]))) VUndef
             [VObj [("a", VNum 1)]] in
  let '(r, h', _) :=
    updateState immutabilityHelper h [VStr "set"; VStr "b"; VNum 2] in
  match r with
  | Ret _ =>
      exists frag,
        pending h' = Some (removelast [VObj [("a", VNum 1)]] ++ [VObj frag])
        /\ setStateCalls h' = setStateCalls h ++ [VObj frag]
  | _ => pending h' = Some (removelast [VObj [("a", VNum 1)]])
  end.
Proof.
  intros h.
  apply (bound_call_pops_pending immutabilityHelper h
           [VStr "set"; VStr "b"; VNum 2] [VObj [("a", VNum 1)]]).
  reflexivity.
Defined.

(** *** What the cache holds *)

Lemma lookup_absent k (o : object) :
  ~ In k (Js.keys o) -> Js.lookup k o = None.
Proof.
  induction o as [|[k' v'] o IH]; simpl; [reflexivity|]. intros Hn.
  destruct (String.eqb_spec k k') as [->|Hne]; [exfalso; auto|].
  apply IH. auto.
Qed.

Lemma distinct_NoDup ks : distinct ks = true -> NoDup ks.
Proof.
  induction ks as [|k ks IH]; simpl; intros H; constructor;
    apply andb_true_iff in H; destruct H as [Hk Hks]; [|auto].
  intros Hin. apply negb_true_iff in Hk.
  assert (Hex : existsb (String.eqb k) ks = true).
  { apply existsb_exists. exists k. split; [exact Hin | apply String.eqb_refl]. }
  congruence.
Qed.

Lemma lookup_fold_defineEntry entries : forall t k,
  NoDup (Js.keys entries) ->
  Js.lookup k (fold_left defineEntry entries t)
  = match Js.lookup k entries with
    | Some x => Some x
    | None => Js.lookup k t
    end.
Proof.
  induction entries as [|[k0 x0] entries IH]; intros t k Hnd; simpl.
  - reflexivity.
  - inversion Hnd as [|? ? Hnotin Hnd']; subst.
    rewrite IH by exact Hnd'. unfold defineEntry. simpl.
    destruct (String.eqb_spec k k0) as [->|Hne].
    + rewrite (lookup_absent k0 entries Hnotin).
      apply lookup_defineProp_same.
    + rewrite lookup_defineProp_other by exact Hne. reflexivity.
Qed.

(** X15: on an orderly host with a pending-state queue,
    [getCachedLastState] returns a cache that maps every key to the value
    the newest pending fragment gives it, and a key the fragment does not
    have to its value in the earlier cache, or in the committed state when
    there was no cache; the committed state is as before. *)
Theorem cache_merges_newest_pending h q :
  orderly h = true -> pending h = Some q ->
  distinct (Js.keys (ownProps (last q VUndef))) = true ->
  distinct (Js.keys (ownProps (state h))) = true ->
  exists cache h1,
    getCachedLastState h = (Ret (VObj cache), h1)
    /\ __lastState h1 = VObj cache
    /\ state h1 = state h
    /\ forall k,
         Js.lookup k cache
         = match Js.lookup k (ownProps (last q VUndef)) with
           | Some x => Some x
           | None =>
               Js.lookup k (ownProps (if Js.truthy (__lastState h)
                                      then __lastState h else state h))
           end.
Proof.
  unfold orderly, pending, getCachedLastState. intros H Hq Hnt Hns.
  apply distinct_NoDup in Hnt, Hns.
  apply andb_true_iff in H. destruct H as [H Hqa].
  apply andb_true_iff in H. destruct H as [H Hc].
  apply andb_true_iff in H. destruct H as [Hobj Hst].
  destruct h as [rc st [[qo]|] c calls]; simpl in *; try discriminate.
  subst qo. destruct st as [| | | | | |sto]; try discriminate.
  pose proof (assignable_last q Hqa) as Htop.
  destruct (assignable_entries _ Htop) as (entries & He & Hk).
  assert (Hown : ownProps (last q VUndef) = entries
                 \/ (entries = [] /\ ownProps (last q VUndef) = [])).
  { destruct (last q VUndef); simpl in He; try discriminate;
      injection He as <-; auto. }
  assert (Hlook : forall k, Js.lookup k (ownProps (last q VUndef))
                            = Js.lookup k entries).
  { intros k. destruct Hown as [->|[-> ->]]; reflexivity. }
  assert (Hnd : NoDup (Js.keys entries)).
  { destruct Hown as [<-|[-> _]]; [exact Hnt | constructor]. }
  destruct (Js.truthy c) eqn:Ht; simpl in Hc.
  - destruct c as [| | | | | |co]; try discriminate.
    unfold Object_assign. rewrite He. simpl.
    rewrite copy_entries by exact Hk. simpl.
    do 2 eexists. split; [reflexivity|]. simpl.
    repeat split. intros k. rewrite Hlook.
    apply lookup_fold_defineEntry. exact Hnd.
  - unfold Object_assign. simpl.
    rewrite copy_entries by exact Hst. simpl. rewrite He. simpl.
    rewrite copy_entries by exact Hk. simpl.
    do 2 eexists. split; [reflexivity|]. simpl.
    repeat split. intros k. rewrite Hlook.
    rewrite lookup_fold_defineEntry by exact Hnd.
    rewrite lookup_fold_defineEntry by exact Hns. simpl.
    destruct (Js.lookup k sto); reflexivity.
Qed.

Lemma cache_merges_newest_pending_witness :
  let h := Instance true (VObj [("a", VNum 0); ("b", VNum 0)])
             (Some (InternalInstance (Some [VObj [("a", VNum 1)]]))) VUndef
             [] in
  exists cache h1,
    getCachedLastState h = (Ret (VObj cache), h1)
    /\ __lastState h1 = VObj cache
    /\ state h1 = state h
    /\ forall k,
         Js.lookup k cache
         = match Js.lookup k (ownProps (last [VObj [("a", VNum 1)]] VUndef)) with
           | Some x => Some x
           | None =>
               Js.lookup k (ownProps (if Js.truthy (__lastState h)
                                      then __lastState h else state h))
           end.
Proof.
  intros h.
  apply (cache_merges_newest_pending h [VObj [("a", VNum 1)]]); reflexivity.
Defined.

(** ** A mapping of single keys *)

Lemma forEach_set_keys applier o entries : forall f,
  (forall p v, In (p, v) entries ->
               Js.lookup p o = Some v /\ isKey p = true /\ notProto p = true) ->
  forEach (Js.keys entries) (updateKey applier (VStr "set") o) f
  = (Ret tt, setNextState (fold_left defineEntry entries (nextState f)) f).
Proof.
  induction entries as [|[p v] entries IH]; intros f Hin; simpl.
  - destruct f; reflexivity.
  - destruct (Hin p v (or_introl eq_refl)) as (Hl & Hk & Hp).
    unfold bind at 1. unfold updateKey at 1. unfold bind at 1, lift at 1.
    simpl. rewrite Hl. rewrite updateProp_set_key by assumption.
    rewrite IH by (intros; apply Hin; right; assumption).
    destruct f; reflexivity.
Qed.

Lemma length_insertIndex n k v (o : object) :
  length (Js.insertIndex n k v o) = S (length o).
Proof.
  induction o as [|[k' v'] o IH]; simpl; [reflexivity|].
  destruct (Js.arrayIndex k') as [n'|]; [destruct (n <? n')%N|]; simpl;
    rewrite ?IH; reflexivity.
Qed.

Lemma length_defineProp_new k v (o : object) :
  Js.lookup k o = None -> length (Js.defineProp k v o) = S (length o).
Proof.
  intros H. unfold Js.defineProp. rewrite H.
  destruct (Js.arrayIndex k).
  - apply length_insertIndex.
  - rewrite length_app. simpl. lia.
Qed.

Lemma length_fold_defineEntry entries : forall t,
  NoDup (Js.keys entries) ->
  (forall k, In k (Js.keys entries) -> Js.lookup k t = None) ->
  length (fold_left defineEntry entries t) = (length entries + length t)%nat.
Proof.
  induction entries as [|[k x] entries IH]; intros t Hnd Hnew; simpl.
  - reflexivity.
  - inversion Hnd as [|? ? Hnotin Hnd']; subst.
    rewrite IH.
    + unfold defineEntry. simpl.
      rewrite length_defineProp_new by (apply Hnew; left; reflexivity). lia.
    + exact Hnd'.
    + intros k' Hin. unfold defineEntry. simpl.
      rewrite lookup_defineProp_other.
      * apply Hnew. right. exact Hin.
      * intros ->. contradiction.
Qed.

(** X16: on an orderly host, the bound ['set'] of a mapping of two or
    more distinct single keys (or of none) returns the fragment it hands
    to [setState], and the fragment gives every key the value the mapping
    gives it and has no other key, whatever the applier; the committed
    state is as before. *)
Theorem bound_set_many applier h o :
  orderly h = true -> distinct (Js.keys o) = true ->
  forallb simpleKey (Js.keys o) = true ->
  length o <> 1%nat ->
  exists frag h',
    updateState applier h [VStr "set"; VObj o] = (Ret (VObj frag), h', VObj o)
    /\ (forall k, Js.lookup k frag = Js.lookup k o)
    /\ setStateCalls h' = setStateCalls h ++ [VObj frag]
    /\ state h' = state h.
Proof.
  intros Ho Hnd Hkeys Hlen. apply distinct_NoDup in Hnd.
  destruct (getCachedLastState_orderly h Ho)
    as (cache & h1 & last & Hc & Hlast & _ & Hst & Hcalls).
  set (frag := fold_left defineEntry o []).
  assert (Hn : updateNextState applier (VStr "set") (VObj o) VUndef
                 (Frame (VObj last) [] (VObj o))
               = (Ret tt, Frame (VObj last) frag (VObj o))).
  { rewrite updateNextState_each.
    change (fun key => bind (lift (Js.getProp (VObj o) key))
                            (fun x => updateProp applier (VStr "set") (VStr key) x))
      with (updateKey applier (VStr "set") o).
    rewrite (forEach_set_keys applier o o); [reflexivity|].
    intros p v Hin. split; [apply lookup_entry; assumption|].
    rewrite forallb_forall in Hkeys.
    assert (Hs : simpleKey p = true).
    { apply Hkeys. apply (in_map fst) in Hin. exact Hin. }
    apply andb_true_iff in Hs. destruct Hs as [Hk Hi].
    apply negb_true_iff in Hi. split; [exact Hk|].
    unfold notProto. rewrite (inherited_notProto p Hi). reflexivity. }
  assert (Hl : length (Js.keys frag) = length o).
  { unfold Js.keys. rewrite length_map. unfold frag.
    rewrite length_fold_defineEntry by (auto; intros; reflexivity).
    simpl. lia. }
  exists frag. eexists.
  rewrite (updateState_run applier h _ cache h1 (Ret tt)
             (Frame (VObj last) frag (VObj o)) Hc)
    by (rewrite Hlast; exact Hn).
  cbv zeta. cbv iota. cbn [nextState pathArray lastState]. rewrite Hl.
  apply Nat.eqb_neq in Hlen. rewrite Hlen.
  split; [reflexivity|]. split; [|split].
  - intros k. unfold frag. rewrite lookup_fold_defineEntry by exact Hnd.
    destruct (Js.lookup k o); reflexivity.
  - simpl. rewrite setStateCalls_written, Hcalls. reflexivity.
  - simpl. rewrite state_written by exact Hlast. exact Hst.
Qed.

Lemma bound_set_many_witness :
  let h := Instance true (VObj [("a", VNum 0); ("b", VNum 0)]) None VUndef [] in
  let o := [("0", VNum 5); ("b", VArr [VNum 2]); ("c", VObj [("d", VNull)])] in
  exists frag h',
    updateState immutabilityHelper h [VStr "set"; VObj o]
    = (Ret (VObj frag), h', VObj o)
    /\ (forall k, Js.lookup k frag = Js.lookup k o)
    /\ setStateCalls h' = setStateCalls h ++ [VObj frag]
    /\ state h' = state h.
Proof.
  intros h o.
  apply (bound_set_many immutabilityHelper h o);
    [reflexivity | reflexivity | reflexivity | simpl; lia].
Defined.

(** ** One path, written in different ways *)

Lemma agree_bind {A B : Type} (m m2 : M frame A) (k k2 : A -> M frame B) :
  agree m m2 -> (forall a, agree (k a) (k2 a)) -> agree (bind m k) (bind m2 k2).
Proof.
  intros Hm Hk f f2 Hf. unfold bind.
  destruct (Hm f f2 Hf) as [Hr Hd].
  destruct (m f) as [r g], (m2 f2) as [r2 g2]. simpl in Hr, Hd. subst r2.
  destruct r as [a| |]; [apply Hk; exact Hd | split; auto | split; auto].
Qed.

Lemma agree_lift {A : Type} (o : outcome A) : agree (lift o) (lift o).
Proof. intros f f2 Hf. split; [reflexivity | exact Hf]. Qed.

Lemma agree_ret {A : Type} (a : A) : agree (ret a) (ret a).
Proof. intros f f2 Hf. split; [reflexivity | exact Hf]. Qed.

Lemma agree_gets_nextState : agree (gets nextState) (gets nextState).
Proof. intros f f2 [Hl Hn]. split; [simpl; congruence | split; assumption]. Qed.

Lemma agree_gets_lastState : agree (gets lastState) (gets lastState).
Proof. intros f f2 [Hl Hn]. split; [simpl; congruence | split; assumption]. Qed.

Lemma agree_setNextState o : agree (modify (setNextState o)) (modify (setNextState o)).
Proof. intros f f2 [Hl Hn]. split; [reflexivity | split; simpl; auto]. Qed.

Lemma agree_setLastState v : agree (modify (setLastState v)) (modify (setLastState v)).
Proof. intros f f2 [Hl Hn]. split; [reflexivity | split; simpl; auto]. Qed.

Lemma agree_assignNextState k x : agree (assignNextState k x) (assignNextState k x).
Proof.
  unfold assignNextState. apply agree_bind; [apply agree_gets_nextState|].
  intros o. destruct (k =? "__proto__");
    [apply agree_lift | apply agree_setNextState].
Qed.

Lemma agree_applyUpdate applier source type path path2 remainPath v :
  agree (applyUpdate applier source type path remainPath v)
        (applyUpdate applier source type path2 remainPath v).
Proof.
  intros f f2 Hf. unfold applyUpdate.
  destruct (updateHelper.update applier source type remainPath v) as [r remain'].
  split; [reflexivity|].
  destruct path, remainPath, path2; exact Hf.
Qed.

Lemma agree_generalPath applier type path path2 remainPath k v :
  agree (generalPath applier type path remainPath k v)
        (generalPath applier type path2 remainPath k v).
Proof.
  unfold generalPath.
  apply agree_bind; [apply agree_gets_nextState|]. intros o.
  apply agree_bind; [apply agree_lift|]. intros written.
  apply agree_bind.
  - destruct written; [|apply agree_ret].
    apply agree_bind; [apply agree_gets_lastState|]. intros last.
    apply agree_bind; [apply agree_lift|]. intros earlier.
    apply agree_bind; [apply agree_lift|]. intros last'.
    apply agree_setLastState.
  - intros _.
    apply agree_bind; [apply agree_gets_lastState|]. intros last.
    apply agree_bind; [apply agree_lift|]. intros source.
    apply agree_bind; [apply agree_applyUpdate|]. intros x.
    apply agree_assignNextState.
Qed.

Lemma agree_updateProp applier type p v :
  agree (updateProp applier type (VStr p) v)
        (updateProp applier type (VArr (map VStr (pathKeys p))) v).
Proof.
  unfold updateProp. apply agree_bind.
  - intros f f2 Hf. split; [reflexivity|].
    unfold destructPath, getDestructPath. simpl. exact Hf.
  - intros [prop remainPath].
    apply agree_bind; [apply agree_lift|]. intros k.
    destruct (negb (Js.truthy remainPath) && isSet type).
    + apply agree_assignNextState.
    + apply agree_generalPath.
Qed.

(** X17: a bound call with a string path and the bound call with the
    sequence of the string's keys are the same update, whatever the
    applier, the host and the operation: they have the same outcome and
    leave the same host. *)
Theorem bound_string_path_is_its_keys applier h type p v :
  let '(r, h', _) := updateState applier h [type; VStr p; v] in
  let '(r2, h2, _) :=
    updateState applier h [type; VArr (map VStr (pathKeys p)); v] in
  r = r2 /\ h' = h2.
Proof.
  unfold updateState, arg. cbn [nth].
  destruct (getCachedLastState h) as [[cache| |] h1]; try (split; reflexivity).
  rewrite !updateNextState_one by reflexivity.
  destruct (agree_updateProp applier type p v
              (Frame (if Js.truthy cache then cache else state h1) [] (VStr p))
              (Frame (if Js.truthy cache then cache else state h1) []
                     (VArr (map VStr (pathKeys p))))
              (conj eq_refl eq_refl)) as [Hr [Hl Hn]].
  destruct (updateProp applier type (VStr p) v _) as [r f].
  destruct (updateProp applier type (VArr _) v _) as [r2 f2].
  simpl in Hr, Hl, Hn. subst r2. rewrite Hl, Hn.
  destruct r; split; reflexivity.
Qed.

Lemma spells_last l : forall keys,
  spells l keys = true ->
  Js.toPropertyKey (last l VUndef)
  = Js.toPropertyKey (last (map VStr keys) VUndef).
Proof.
  induction l as [|x l IH]; intros [|k keys] H; simpl in H; try discriminate.
  - reflexivity.
  - destruct (Js.toPropertyKey x) as [k'| |] eqn:Hx; try discriminate.
    apply andb_true_iff in H. destruct H as [Hk H].
    apply String.eqb_eq in Hk. subst k'.
    destruct l as [|y l], keys as [|k2 keys]; simpl in H; try discriminate.
    + exact Hx.
    + apply (IH (k2 :: keys) H).
Qed.

Lemma spells_removelast l : forall keys,
  spells l keys = true -> spells (removelast l) (removelast keys) = true.
Proof.
  induction l as [|x l IH]; intros [|k keys] H; simpl in H; try discriminate.
  - reflexivity.
  - destruct (Js.toPropertyKey x) as [k'| |] eqn:Hx; try discriminate.
    apply andb_true_iff in H. destruct H as [Hk H].
    destruct l as [|y l], keys as [|k2 keys]; simpl in H; try discriminate.
    + reflexivity.
    + change (removelast (x :: y :: l)) with (x :: removelast (y :: l)).
      change (removelast (k :: k2 :: keys)) with (k :: removelast (k2 :: keys)).
      simpl spells. rewrite Hx, Hk. simpl. apply (IH (k2 :: keys) H).
Qed.

Lemma nestLoop_spells l : forall keys target,
  spells l keys = true ->
  updateHelper.nestLoop l target = updateHelper.nestLoop (map VStr keys) target.
Proof.
  induction l as [|x l IH]; intros [|k keys] target H; simpl in H;
    try discriminate.
  - reflexivity.
  - destruct (Js.toPropertyKey x) as [k'| |] eqn:Hx; try discriminate.
    apply andb_true_iff in H. destruct H as [Hk H].
    apply String.eqb_eq in Hk. subst k'.
    simpl. rewrite Hx. simpl.
    destruct (k =? "__proto__"); [reflexivity|]. apply IH. exact H.
Qed.

Lemma removelast_map_VStr keys :
  removelast (map VStr keys) = map VStr (removelast keys).
Proof.
  induction keys as [|k [|k2 keys] IH]; try reflexivity.
  change (removelast (map VStr (k :: k2 :: keys)))
    with (VStr k :: removelast (map VStr (k2 :: keys))).
  rewrite IH. reflexivity.
Qed.

Lemma getNestedData_spells l keys leaf :
  spells l keys = true ->
  fst (updateHelper.getNestedData (VArr l) leaf)
  = fst (updateHelper.getNestedData (VArr (map VStr keys)) leaf).
Proof.
  intros H. unfold updateHelper.getNestedData, Js.pop. simpl.
  rewrite (nestLoop_spells _ _ _ (spells_removelast l keys H)).
  rewrite removelast_map_VStr, (spells_last l keys H). reflexivity.
Qed.

(** X18: in a pure call a sequence path is read element by element as
    property keys: a sequence whose elements name the keys of a string
    path (a string names itself, an integer of magnitude below 2^53 its
    decimal digits) gives the same outcome as the string, whatever the
    applier, the source and the operation. *)
Theorem pure_path_by_keys applier source type v l p :
  spells l (pathKeys p) = true ->
  fst (updateSilent applier [source; type; VArr l; v])
  = fst (updateSilent applier [source; type; VStr p; v]).
Proof.
  intros H. unfold updateSilent, arg. cbn [nth].
  rewrite getPathArray_string. simpl getPathArray.
  unfold updateHelper.update, updateHelper.getImmutabilitySugar.
  destruct (updateHelper.getImmutabilitySugarCommand type v) as [c| |];
    try reflexivity.
  pose proof (getNestedData_spells l (pathKeys p) c H) as Hn.
  destruct (updateHelper.getNestedData (VArr l) c) as [r q].
  destruct (updateHelper.getNestedData (VArr (map VStr (pathKeys p))) c)
    as [r2 q2].
  simpl in Hn. subst r2. destruct r; reflexivity.
Qed.

Lemma pure_path_by_keys_witness :
  fst (updateSilent immutabilityHelper
         [VObj [("list", VArr [VNum 1; VNum 2])]; VStr "set";
          VArr [VStr "list"; VNum 1]; VNum 9])
  = fst (updateSilent immutabilityHelper
           [VObj [("list", VArr [VNum 1; VNum 2])]; VStr "set";
            VStr "list[1]"; VNum 9]).
Proof.
  apply (pure_path_by_keys immutabilityHelper
           (VObj [("list", VArr [VNum 1; VNum 2])]) (VStr "set") (VNum 9)
           [VStr "list"; VNum 1] "list[1]").
  reflexivity.
Defined.

(** ** From the committed state to the fragment *)



(** ** Hosts of plain data stay hosts of plain data *)

Lemma keys_defineProp k x (o : object) k' :
  In k' (Js.keys (Js.defineProp k x o)) -> k' = k \/ In k' (Js.keys o).
Proof.
  unfold Js.defineProp. destruct (Js.lookup k o).
  - induction o as [|[k0 v0] o IH]; simpl; [tauto|].
    destruct (k =? k0); simpl; intuition.
  - destruct (Js.arrayIndex k) as [n|].
    + induction o as [|[k0 v0] o IH]; simpl; [intuition|].
      destruct (Js.arrayIndex k0) as [n'|]; [destruct (n <? n')%N|];
        simpl; intuition.
    + unfold Js.keys. rewrite map_app, in_app_iff. simpl. intuition.
Qed.

Lemma forallb_defineProp k x (o : object) :
  (k =? "__proto__") = false ->
  forallb notProto (Js.keys o) = true ->
  forallb notProto (Js.keys (Js.defineProp k x o)) = true.
Proof.
  intros Hk Ho. apply forallb_forall. intros k' Hin.
  destruct (keys_defineProp k x o k' Hin) as [->|Hin'].
  - unfold notProto. rewrite Hk. reflexivity.
  - rewrite forallb_forall in Ho. apply Ho. exact Hin'.
Qed.

Section Preserved.

Variable applier : value -> value -> outcome value.
Variable strict : bool.

Lemma preserves_bind {A B} I (m : M frame A) (k : A -> M frame B) :
  preserves I m -> (forall a, preserves I (k a)) -> preserves I (bind m k).
Proof.
  intros Hm Hk f Hf. unfold bind. specialize (Hm f Hf).
  destruct (m f) as [[a| |] f1]; simpl in *; try assumption.
  apply Hk. exact Hm.
Qed.

Lemma preserves_lift {A} I (o : outcome A) : preserves I (lift o).
Proof. intros f Hf. exact Hf. Qed.

Lemma preserves_ret {A} I (a : A) : preserves I (ret a).
Proof. intros f Hf. exact Hf. Qed.

Lemma preserves_gets {A} I (g : frame -> A) : preserves I (gets g).
Proof. intros f Hf. exact Hf. Qed.

Lemma preserves_forEach {A} I (l : list A) (body : A -> M frame unit) :
  (forall x, preserves I (body x)) -> preserves I (forEach l body).
Proof.
  intros Hb. induction l as [|x l IH]; simpl.
  - apply preserves_ret.
  - apply preserves_bind; [apply Hb | intros _; exact IH].
Qed.

Lemma tidy_assignNextState k x : preserves (tidy strict) (assignNextState k x).
Proof.
  intros f [Hl Hn]. unfold assignNextState, bind, gets, lift, modify.
  destruct (k =? "__proto__") eqn:Hk; simpl; [split; assumption|].
  split; [exact Hl|]. apply forallb_defineProp; assumption.
Qed.

Lemma tidy_destructPath path : preserves (tidy strict) (destructPath path).
Proof.
  intros f Hf. unfold destructPath.
  destruct (getDestructPath path) as [r path']. destruct path; exact Hf.
Qed.

Lemma tidy_applyUpdate source type path remainPath v :
  preserves (tidy strict) (applyUpdate applier source type path remainPath v).
Proof.
  intros f Hf. unfold applyUpdate.
  destruct (updateHelper.update applier source type remainPath v) as [r remain'].
  destruct path, remainPath; exact Hf.
Qed.

Lemma tidy_rollBack (o : object) k :
  preserves (tidy strict)
    (bind (gets lastState) (fun last =>
     bind (lift (Js.getProp (VObj o) k)) (fun earlier =>
     bind (lift (Js.setProp last k earlier)) (fun last' =>
     modify (setLastState last'))))).
Proof.
  intros f [(l & Hl & Hs) Hn]. unfold bind, gets, lift, modify.
  destruct (Js.getProp (VObj o) k) as [earlier| |];
    try (split; [exists l; split; assumption | exact Hn]).
  rewrite Hl. simpl.
  destruct (k =? "__proto__") eqn:Hk; simpl;
    try (split; [exists l; split; assumption | exact Hn]).
  split; [|exact Hn]. eexists. split; [reflexivity|].
  intros Hstrict. apply forallb_defineProp; auto.
Qed.

Lemma tidy_generalPath type path remainPath k v :
  preserves (tidy strict) (generalPath applier type path remainPath k v).
Proof.
  unfold generalPath.
  apply preserves_bind; [apply preserves_gets|]. intros o.
  apply preserves_bind; [apply preserves_lift|]. intros written.
  apply preserves_bind.
  - destruct written; [apply tidy_rollBack | apply preserves_ret].
  - intros _.
    apply preserves_bind; [apply preserves_gets|]. intros last.
    apply preserves_bind; [apply preserves_lift|]. intros source.
    apply preserves_bind; [apply tidy_applyUpdate|]. intros x.
    apply tidy_assignNextState.
Qed.

Lemma tidy_updateProp type path v :
  preserves (tidy strict) (updateProp applier type path v).
Proof.
  unfold updateProp.
  apply preserves_bind; [apply tidy_destructPath|]. intros [prop remainPath].
  apply preserves_bind; [apply preserves_lift|]. intros k.
  destruct (negb (Js.truthy remainPath) && isSet type).
  - apply tidy_assignNextState.
  - apply tidy_generalPath.
Qed.

Lemma tidy_updateNextState type path v :
  preserves (tidy strict) (updateNextState applier type path v).
Proof.
  destruct (isPlainObject path) eqn:Hplain.
  - destruct path; try discriminate Hplain.
    rewrite updateNextState_each. apply preserves_forEach. intros key.
    apply preserves_bind; [apply preserves_lift|]. intros x.
    apply tidy_updateProp.
  - rewrite updateNextState_one by exact Hplain. apply tidy_updateProp.
Qed.

End Preserved.

Lemma forallb_assignable_app q frag :
  forallb assignable q = true ->
  forallb notProto (Js.keys frag) = true ->
  forallb assignable (q ++ [VObj frag]) = true.
Proof.
  intros Hq Hf. rewrite forallb_app, Hq. simpl. rewrite Hf. reflexivity.
Qed.

(** X20: whatever the applier and the arguments, a bound call leaves an
    orderly host orderly, whether it returns or not: the committed state
    is still a plain object without [__proto__] key, the cache is still
    falsy (absent) or a plain object, and every pending fragment is still
    one that [Object.assign] copies: a plain object without [__proto__]
    key, [undefined], [null], a boolean or a number. *)
Theorem orderly_is_kept applier h args :
  orderly h = true ->
  orderly (snd (fst (updateState applier h args))) = true.
Proof.
  intros Ho.
  destruct (getCachedLastState_orderly h Ho)
    as (cache & h1 & last & Hc & Hlast & Hcache & Hst & _).
  pose proof (getCachedLastState_pending h) as Hp. rewrite Hc in Hp.
  simpl in Hp.
  unfold orderly in Ho.
  apply andb_true_iff in Ho. destruct Ho as [Ho Hq].
  apply andb_true_iff in Ho. destruct Ho as [Ho _].
  apply andb_true_iff in Ho. destruct Ho as [Hobj Hass].
  rewrite <- Hst in Hobj, Hass.
  assert (Hq1 : match pending h1 with
                | Some q => forallb assignable q
                | None => true
                end = true).
  { rewrite Hp. unfold pending.
    destruct (_reactInternalInstance h) as [[[q|]]|]; simpl; auto.
    apply forallb_removelast. exact Hq. }
  clear Hp Hq.
  destruct (updateNextState applier (arg 0 args) (arg 1 args) (arg 2 args)
              (Frame (if Js.truthy cache then cache else state h1) []
                     (arg 1 args))) as [r f] eqn:Hn.
  assert (Htidy : tidy (negb (Js.truthy cache)) f).
  { pose proof (tidy_updateNextState applier (negb (Js.truthy cache))
                  (arg 0 args) (arg 1 args) (arg 2 args)
                  (Frame (if Js.truthy cache then cache else state h1) []
                         (arg 1 args))) as Ht.
    rewrite Hn in Ht. apply Ht. split; [|reflexivity].
    exists last. split; [exact Hlast|]. intros Hstrict.
    apply negb_true_iff in Hstrict. rewrite Hstrict in Hlast.
    rewrite Hlast in Hass. exact Hass. }
  destruct Htidy as [(l & Hl & Hs) Hnext].
  rewrite (updateState_run applier h args cache h1 r f Hc Hn).
  rewrite Hl.
  assert (Hh2 : forall g,
             (g = (if Js.truthy cache then with_lastState (VObj l) h1
                   else with_state (VObj l) h1)) ->
             isPlainObject (state g) && assignable (state g)
             && (negb (Js.truthy (__lastState g)) || isPlainObject (__lastState g))
             = true
             /\ pending g = pending h1).
  { intros g ->. destruct (Js.truthy cache) eqn:Ht; simpl.
    - rewrite Hobj, Hass. split; reflexivity.
    - rewrite Hs by reflexivity. rewrite Hcache, Ht. split; reflexivity. }
  destruct (Hh2 _ eq_refl) as [Hfront Hpend].
  set (h2 := if Js.truthy cache then with_lastState (VObj l) h1
             else with_state (VObj l) h1) in *.
  assert (Hkept : orderly h2 = true).
  { unfold orderly. rewrite Hfront. simpl.
    unfold pending in Hpend, Hq1.
    destruct (_reactInternalInstance h2) as [[[q2|]]|],
             (_reactInternalInstance h1) as [[[q1|]]|];
      simpl in *; try reflexivity; try discriminate; congruence. }
  assert (Hset : orderly (setState h2 (VObj (nextState f))) = true).
  { unfold orderly in *. simpl.
    apply andb_true_iff in Hkept. destruct Hkept as [Hfr Hqq].
    rewrite Hfr. simpl.
    destruct (_reactInternalInstance h2) as [[[q2|]]|]; simpl; try reflexivity.
    - apply forallb_assignable_app; assumption.
    - rewrite Hnext. reflexivity. }
  destruct r as [[]| |]; cbv zeta; cbv iota; simpl; assumption.
Qed.

Lemma orderly_is_kept_witness :
  orderly
    (snd (fst (updateState immutabilityHelper
                 (Instance true (VObj [("a", VObj [("x", VNum 0)])])
                           (Some (InternalInstance (Some [VObj [("a", VNum 1)]])))
                           VUndef [VObj [("a", VNum 1)]])
                 [VStr "push"; VStr "a.x"; VNum 2])))
  = true.
Proof.
  apply (orderly_is_kept immutabilityHelper
           (Instance true (VObj [("a", VObj [("x", VNum 0)])])
                     (Some (InternalInstance (Some [VObj [("a", VNum 1)]])))
                     VUndef [VObj [("a", VNum 1)]])
           [VStr "push"; VStr "a.x"; VNum 2]).
  reflexivity.
Defined.
